(** * PageAnnotationView: overlay life cycle and render coordination

    A shallow embedding of [src/components/page-annotation-view.ts].

    The class is asynchronous: [appendAsync] and [renderAnnotationsAsync]
    suspend at every [await], and [destroy] or [remove] may run while they
    are suspended.  The embedding cuts each async function at its awaits.
    A state of the system is the view's private fields, the two DOM nodes it
    owns, the annotation entities of the document service (shared, mutable),
    the state of the event bus and the activations of [appendAsync] that are
    suspended.  An [Event] is one uninterrupted run of JavaScript: a call
    from outside or the resumption of a suspended activation. *)

From stdpp Require Import gmap strings list.

Set Warnings "-clear-no-such-hyp".

(** ** Data *)

Abbreviation AnnotId := nat (only parsing).
Abbreviation HostId := nat (only parsing).
Abbreviation NodeId := nat (only parsing).

(** [AnnotationRenderResult]: an SVG element holding the controls and a
    div holding the content. *)
Record AnnotationRenderResult := mkResult {
  controls : NodeId;
  content : NodeId }.

(** The closures [processAnnotation] stores in the callback slots of an
    annotation: each dispatches one event on the event service. *)
Inductive Action :=
| DispatchSelectionRequest (annotation : AnnotId)
| DispatchFocusRequest (annotation : option AnnotId).

(** The fields of a [RenderableAnnotation] the view reads or writes. *)
Record RenderableAnnotation := mkAnnot {
  deleted : bool;
  lastRenderResult : option AnnotationRenderResult;
  onPointerDownAction : option Action;
  onPointerEnterAction : option Action;
  onPointerLeaveAction : option Action }.

Record PageInfo := mkPageInfo { id : nat }.
Record Vec2 := mkVec2 { x : Z; y : Z }.
Abbreviation Quadruple := (Z * Z * Z * Z)%type (only parsing).

(** The document service as the constructor receives it: the entities it
    owns.  Its event service starts without a listener of this view, since
    [onAnnotationSelectionChange] is created with the view. *)
Record DocumentService := mkService {
  annotations : gmap nat RenderableAnnotation }.

(** Children of the container div: content fragments, and the svg. *)
Inductive DivChild :=
| ContentNode (n : NodeId)
| SvgNode.

Inductive Error :=
| JsError (message : string)   (* new Error(message) *)
| TypeError                    (* member access on null or undefined *)
| Rejection.                   (* whatever a collaborator threw *)

Inductive Completion (A : Type) :=
| Normal (v : A)
| Abrupt (e : Error).
Arguments Normal {A} v.
Arguments Abrupt {A} e.

(** Where an activation of [appendAsync] stands. *)
Inductive Phase :=
| AwaitFetch                        (* await getPageAnnotationsAsync(...) *)
| AwaitAll                          (* await Promise.all(...) *)
| Settled (r : Completion bool)     (* renderAnnotationsAsync has settled *)
| Done (r : Completion unit).       (* appendAsync has settled *)

(** An activation, with the [processAnnotation] tasks of its render pass
    that are suspended at [await annotation.renderAsync(...)]. *)
Record Pass := mkPass {
  phase : Phase;
  pending : list AnnotId }.

(** Calls the view makes on entities, recorded for counting. *)
Inductive Call :=
| InstallActions (a : AnnotId)
| RenderAsync (a : AnnotId).

#[global] Instance AnnotationRenderResult_eq_dec : EqDecision AnnotationRenderResult.
Proof. solve_decision. Defined.
#[global] Instance Action_eq_dec : EqDecision Action.
Proof. solve_decision. Defined.
#[global] Instance DivChild_eq_dec : EqDecision DivChild.
Proof. solve_decision. Defined.
#[global] Instance Call_eq_dec : EqDecision Call.
Proof. solve_decision. Defined.
#[global] Instance Error_eq_dec : EqDecision Error.
Proof. solve_decision. Defined.
#[global] Instance Completion_eq_dec {A} `{EqDecision A} : EqDecision (Completion A).
Proof. solve_decision. Defined.
#[global] Instance Phase_eq_dec : EqDecision Phase.
Proof. solve_decision. Defined.
#[global] Instance Pass_eq_dec : EqDecision Pass.
Proof. solve_decision. Defined.

Record State := mkState {
  (* fields of PageAnnotationView *)
  _pageInfo : PageInfo;
  _viewbox : Quadruple;
  _rendered : gset nat;
  _container : option unit;         (* None: the field holds null *)
  _destroyed : bool;
  (* the container div and the svg *)
  div_parent : option HostId;
  div_children : list DivChild;
  div_touchAction : string;
  svg_children : list NodeId;
  (* the document service *)
  entities : gmap nat RenderableAnnotation;
  listening : bool;                 (* onAnnotationSelectionChange is registered *)
  (* suspended activations, and history kept for the statements *)
  passes : list Pass;
  calls : list Call;
  fetched : list (list AnnotId) }.

(** ** Field updates *)

Definition set_rendered (v : gset nat) (s : State) : State :=
  mkState (_pageInfo s) (_viewbox s) v (_container s) (_destroyed s)
    (div_parent s) (div_children s) (div_touchAction s) (svg_children s)
    (entities s) (listening s) (passes s) (calls s) (fetched s).
Definition set_container (v : option unit) (s : State) : State :=
  mkState (_pageInfo s) (_viewbox s) (_rendered s) v (_destroyed s)
    (div_parent s) (div_children s) (div_touchAction s) (svg_children s)
    (entities s) (listening s) (passes s) (calls s) (fetched s).
Definition set_destroyed (v : bool) (s : State) : State :=
  mkState (_pageInfo s) (_viewbox s) (_rendered s) (_container s) v
    (div_parent s) (div_children s) (div_touchAction s) (svg_children s)
    (entities s) (listening s) (passes s) (calls s) (fetched s).
Definition set_div_parent (v : option HostId) (s : State) : State :=
  mkState (_pageInfo s) (_viewbox s) (_rendered s) (_container s) (_destroyed s)
    v (div_children s) (div_touchAction s) (svg_children s)
    (entities s) (listening s) (passes s) (calls s) (fetched s).
Definition set_div_children (v : list DivChild) (s : State) : State :=
  mkState (_pageInfo s) (_viewbox s) (_rendered s) (_container s) (_destroyed s)
    (div_parent s) v (div_touchAction s) (svg_children s)
    (entities s) (listening s) (passes s) (calls s) (fetched s).
Definition set_div_touchAction (v : string) (s : State) : State :=
  mkState (_pageInfo s) (_viewbox s) (_rendered s) (_container s) (_destroyed s)
    (div_parent s) (div_children s) v (svg_children s)
    (entities s) (listening s) (passes s) (calls s) (fetched s).
Definition set_svg_children (v : list NodeId) (s : State) : State :=
  mkState (_pageInfo s) (_viewbox s) (_rendered s) (_container s) (_destroyed s)
    (div_parent s) (div_children s) (div_touchAction s) v
    (entities s) (listening s) (passes s) (calls s) (fetched s).
Definition set_entities (v : gmap nat RenderableAnnotation) (s : State) : State :=
  mkState (_pageInfo s) (_viewbox s) (_rendered s) (_container s) (_destroyed s)
    (div_parent s) (div_children s) (div_touchAction s) (svg_children s)
    v (listening s) (passes s) (calls s) (fetched s).
Definition set_listening (v : bool) (s : State) : State :=
  mkState (_pageInfo s) (_viewbox s) (_rendered s) (_container s) (_destroyed s)
    (div_parent s) (div_children s) (div_touchAction s) (svg_children s)
    (entities s) v (passes s) (calls s) (fetched s).
Definition set_passes (v : list Pass) (s : State) : State :=
  mkState (_pageInfo s) (_viewbox s) (_rendered s) (_container s) (_destroyed s)
    (div_parent s) (div_children s) (div_touchAction s) (svg_children s)
    (entities s) (listening s) v (calls s) (fetched s).
Definition set_calls (v : list Call) (s : State) : State :=
  mkState (_pageInfo s) (_viewbox s) (_rendered s) (_container s) (_destroyed s)
    (div_parent s) (div_children s) (div_touchAction s) (svg_children s)
    (entities s) (listening s) (passes s) v (fetched s).
Definition set_fetched (v : list (list AnnotId)) (s : State) : State :=
  mkState (_pageInfo s) (_viewbox s) (_rendered s) (_container s) (_destroyed s)
    (div_parent s) (div_children s) (div_touchAction s) (svg_children s)
    (entities s) (listening s) (passes s) (calls s) v.

(** ** A state monad with abrupt completion

    A synchronous piece of the class either completes or throws; what it
    wrote before throwing stays written. *)

Definition Js (A : Type) : Type := State -> Completion A * State.

Definition ret {A} (v : A) : Js A := fun s => (Normal v, s).
Definition throw {A} (e : Error) : Js A := fun s => (Abrupt e, s).
Definition bind {A B} (m : Js A) (k : A -> Js B) : Js B :=
  fun s => match m s with
           | (Normal v, s') => k v s'
           | (Abrupt e, s') => (Abrupt e, s')
           end.
Definition write (f : State -> State) : Js unit := fun s => (Normal tt, f s).

Declare Scope js_scope.
Notation "m ;; k" := (bind m (fun _ => k))
  (at level 100, k at level 200, right associativity) : js_scope.
Delimit Scope js_scope with js.
Bind Scope js_scope with Js.
Local Open Scope js_scope.

(** ** The DOM and the entities *)

(** [parent.append(node)]: the node becomes the last child; a node that
    was a child already is moved, not duplicated. *)
Definition dom_append {A} `{EqDecision A} (n : A) (l : list A) : list A :=
  filter (fun m => m ≠ n) l ++ [n].

(** An entity the store has no entry for is one nothing was written to. *)
Definition blank : RenderableAnnotation := mkAnnot false None None None None.

Definition entity (m : gmap nat RenderableAnnotation) (a : AnnotId)
  : RenderableAnnotation := default blank (m !! a).

Definition with_actions (down enter leave : option Action)
    (e : RenderableAnnotation) : RenderableAnnotation :=
  mkAnnot (deleted e) (lastRenderResult e) down enter leave.

Definition actions (e : RenderableAnnotation)
  : option Action * option Action * option Action :=
  (onPointerDownAction e, onPointerEnterAction e, onPointerLeaveAction e).

(** The three assignments at the top of [processAnnotation]. *)
Definition install_actions (a : AnnotId) (m : gmap nat RenderableAnnotation)
  : gmap nat RenderableAnnotation :=
  <[a := with_actions (Some (DispatchSelectionRequest a))
                      (Some (DispatchFocusRequest (Some a)))
                      (Some (DispatchFocusRequest None))
                      (entity m a)]> m.

(** The body of the [forEach] in [destroy]. *)
Definition clear_actions (a : AnnotId) (m : gmap nat RenderableAnnotation)
  : gmap nat RenderableAnnotation :=
  <[a := with_actions None None None (entity m a)]> m.

(** ** The methods *)

(** The fields and the two elements as the constructor leaves them:
    nothing rendered, nothing attached, [_destroyed] not yet written
    (undefined, which every test reads as false). *)
Definition new_view (svc : DocumentService) (info : PageInfo) (dims : Vec2) : State :=
  mkState info (0, 0, x dims, y dims)%Z ∅ (Some tt) false None [] "" []
    (annotations svc) false [] [] [].

(** [constructor]: the argument check, then the two elements.  The
    pointerdown listener of the svg only calls the document service and is
    left out. *)
Definition constructor (docService : option DocumentService)
    (pageInfo : option PageInfo) (pageDimensions : option Vec2)
  : Completion State :=
  match docService, pageInfo, pageDimensions with
  | Some svc, Some info, Some dims =>
      Normal (new_view svc info dims)
  | _, _, _ => Abrupt (JsError "Required argument not found")
  end.

(** [remove]: [this._container?.remove()], then [removeListener]. *)
Definition remove : Js unit :=
  write (fun s => match _container s with
                  | Some _ => set_div_parent None s
                  | None => s
                  end) ;;
  write (set_listening false).

(** [destroy]. *)
Definition destroy : Js unit :=
  write (set_destroyed true) ;;
  remove ;;
  write (set_container None) ;;
  write (fun s => set_entities
                    (foldr clear_actions (entities s) (elements (_rendered s))) s) ;;
  write (set_rendered ∅).

(** [clear]: the first assignment throws when [_container] is null. *)
Definition clear : Js unit :=
  (fun s => match _container s with
            | Some _ => (Normal tt, set_div_children [] s)
            | None => (Abrupt TypeError, s)
            end) ;;
  write (set_svg_children []).

(** [this._container.append(node)]. *)
Definition container_append (n : DivChild) : Js unit :=
  fun s => match _container s with
           | Some _ => (Normal tt, set_div_children (dom_append n (div_children s)) s)
           | None => (Abrupt TypeError, s)
           end.

(** [annotation.renderAsync(this._pageInfo)]: the call is recorded; the
    entity decides when it settles and with what. *)
Definition renderAsync (a : AnnotId) : Js unit :=
  write (fun s => set_calls (calls s ++ [RenderAsync a]) s).

(** The end of [processAnnotation], from the test of [renderResult]. *)
Definition processAnnotation_finish (a : AnnotId)
    (renderResult : option AnnotationRenderResult) : Js unit :=
  fun s =>
    match renderResult with
    | Some r =>
        if _destroyed s then (Normal tt, s)
        else (write (fun s => set_rendered ({[a]} ∪ _rendered s) s) ;;
              write (fun s => set_svg_children (dom_append (controls r) (svg_children s)) s) ;;
              container_append (ContentNode (content r))) s
    | None => (Normal tt, s)
    end.

(** How far a call of [processAnnotation] gets before it returns its
    promise to [map]. *)
Inductive Task :=
| Suspended                       (* at await annotation.renderAsync(...) *)
| Finished (r : Completion unit).

(** [processAnnotation] up to its first await, or to its end when the
    cached result is used and nothing is awaited. *)
Definition processAnnotation_enter (a : AnnotId) (s : State) : Task * State :=
  if decide (a ∈ _rendered s) then
    match lastRenderResult (entity (entities s) a) with
    | Some r => let (c, s') := processAnnotation_finish a (Some r) s in
                (Finished c, s')
    | None => (Suspended, snd (renderAsync a s))
    end
  else
    (Suspended,
     snd (renderAsync a
            (set_calls (calls s ++ [InstallActions a])
               (set_entities (install_actions a (entities s)) s)))).

(** [annotations.map(x => processAnnotation(x))]: the calls run one after
    the other, each up to its first await.  Returns the tasks left
    suspended and the first rejection among the tasks that ended. *)
Fixpoint fan_out (l : list AnnotId) (s : State)
  : list AnnotId * option Error * State :=
  match l with
  | [] => ([], None, s)
  | a :: l' =>
      let (t, s1) := processAnnotation_enter a s in
      let '(susp, err, s2) := fan_out l' s1 in
      match t with
      | Suspended => (a :: susp, err, s2)
      | Finished (Normal _) => (susp, err, s2)
      | Finished (Abrupt e) => (susp, Some e, s2)
      end
  end.

(** What [await getPageAnnotationsAsync(...)] yields. *)
Inductive FetchOutcome :=
| FetchList (l : list AnnotId)
| FetchNothing                    (* the promise resolves to null or undefined *)
| FetchThrows.                    (* the promise rejects *)

(** [renderAnnotationsAsync] up to [await getPageAnnotationsAsync]. *)
Definition renderAnnotationsAsync_enter (s : State) : Phase * State :=
  if _destroyed s then (Settled (Normal false), s)
  else match clear s with
       | (Normal _, s') => (AwaitFetch, s')
       | (Abrupt e, s') => (Settled (Abrupt e), s')
       end.

(** [renderAnnotationsAsync] from the fetch to [await Promise.all]: the
    phase reached and the tasks left suspended.  The filter is called on
    what the fetch yielded; [|| []] applies to the filtered array.  A task
    that rejected before [Promise.all] is reached rejects it, and the pass
    with it. *)
Definition renderAnnotationsAsync_fetched (o : FetchOutcome) (s : State)
  : Phase * list AnnotId * State :=
  match o with
  | FetchThrows => (Settled (Abrupt Rejection), [], s)
  | FetchNothing => (Settled (Abrupt TypeError), [], s)
  | FetchList l =>
      let s0 := set_fetched (l :: fetched s) s in
      let annots := filter (fun a => deleted (entity (entities s0) a) = false) l in
      let '(susp, err, s1) := fan_out annots s0 in
      match err with
      | None => (AwaitAll, susp, s1)
      | Some e => (Settled (Abrupt e), susp, s1)
      end
  end.

(** [renderAnnotationsAsync] after [await Promise.all]. *)
Definition renderAnnotationsAsync_joined (s : State) : Completion bool * State :=
  if _destroyed s then (Normal false, s)
  else match container_append SvgNode s with
       | (Normal _, s') => (Normal true, s')
       | (Abrupt e, s') => (Abrupt e, s')
       end.

(** [appendAsync] up to [await this.renderAnnotationsAsync()].  Nothing is
    started when the view is destroyed. *)
Definition appendAsync_enter (parent : HostId) (s : State) : State :=
  if _destroyed s then s
  else
    let s1 := match _container s with
              | Some _ => set_div_parent (Some parent) s
              | None => s
              end in
    let (ph, s2) := renderAnnotationsAsync_enter s1 in
    set_passes (passes s2 ++ [mkPass ph []]) s2.

(** [appendAsync] after the await. *)
Definition appendAsync_resume (r : Completion bool) (s : State)
  : Completion unit * State :=
  match r with
  | Abrupt e => (Abrupt e, s)
  | Normal false =>
      (Normal tt, match _container s with
                  | Some _ => set_div_parent None s
                  | None => s
                  end)
  | Normal true => (Normal tt, set_listening true s)
  end.

(** The detail of an [AnnotEvent]. *)
Record AnnotEventDetail := mkDetail {
  type : string;
  detail_annotations : option (list AnnotId) }.

(** [onAnnotationSelectionChange]. *)
Definition onAnnotationSelectionChange (e : AnnotEventDetail) : Js unit :=
  fun s =>
    if negb (_destroyed s) && bool_decide (type e = "select") then
      match _container s with
      | None => (Abrupt TypeError, s)
      | Some _ =>
          match detail_annotations e with
          | Some (_ :: _) => (Normal tt, set_div_touchAction "none" s)
          | _ => (Normal tt, set_div_touchAction "" s)
          end
      end
    else (Normal tt, s).

(** ** Events

    One event is one uninterrupted run: a call of a public method, the
    delivery of an event by the bus, a write to an entity by its owner, or
    the resumption of an activation at the await where it is suspended.
    Activations are named by their position in [passes], tasks by their
    position in [pending].

    A task resumes when the render it awaits settles.  With a result or
    with null it runs the end of [processAnnotation].  With a rejection it
    rethrows, and so does the pass if it is still at [Promise.all], which
    rejects with the first task that does; the other tasks go on.

    [EntityUpdate] is the owner of an entity writing its deletion flag and
    its cached render result.  The callback slots are written by the view
    alone. *)
Inductive Event :=
| CallAppend (parent : HostId)            (* appendAsync(parent) *)
| CallRemove                              (* remove() *)
| CallDestroy                             (* destroy() *)
| FetchSettle (p : nat) (o : FetchOutcome)
| RenderSettle (p k : nat) (r : option AnnotationRenderResult)
| RenderReject (p k : nat)                (* renderAsync has thrown *)
| PassJoin (p : nat)                      (* Promise.all has resolved *)
| AppendResume (p : nat)                  (* the render pass has settled *)
| BusDeliver (e : AnnotEventDetail)       (* annotChangeEvent *)
| EntityUpdate (a : AnnotId) (d : bool) (c : option AnnotationRenderResult).

Definition set_pass (p : nat) (v : Pass) (s : State) : State :=
  set_passes (<[p := v]> (passes s)) s.

(** The event's effect, or [None] when nothing is suspended where the
    event says. *)
Definition step_opt (e : Event) (s : State) : option State :=
  match e with
  | CallAppend parent => Some (appendAsync_enter parent s)
  | CallRemove => Some (snd (remove s))
  | CallDestroy => Some (snd (destroy s))
  | FetchSettle p o =>
      match passes s !! p with
      | Some (mkPass AwaitFetch pend) =>
          let '(ph, susp, s') := renderAnnotationsAsync_fetched o s in
          Some (set_pass p (mkPass ph (pend ++ susp)) s')
      | _ => None
      end
  | RenderSettle p k r =>
      match passes s !! p with
      | Some (mkPass ph pend) =>
          match pend !! k with
          | Some a =>
              let (c, s') := processAnnotation_finish a r s in
              let ph' := match c, ph with
                         | Abrupt err, AwaitAll => Settled (Abrupt err)
                         | _, _ => ph
                         end in
              Some (set_pass p (mkPass ph' (delete k pend)) s')
          | None => None
          end
      | None => None
      end
  | RenderReject p k =>
      match passes s !! p with
      | Some (mkPass ph pend) =>
          match pend !! k with
          | Some a =>
              let ph' := match ph with
                         | AwaitAll => Settled (Abrupt Rejection)
                         | _ => ph
                         end in
              Some (set_pass p (mkPass ph' (delete k pend)) s)
          | None => None
          end
      | None => None
      end
  | PassJoin p =>
      match passes s !! p with
      | Some (mkPass AwaitAll []) =>
          let (c, s') := renderAnnotationsAsync_joined s in
          Some (set_pass p (mkPass (Settled c) []) s')
      | _ => None
      end
  | AppendResume p =>
      match passes s !! p with
      | Some (mkPass (Settled r) pend) =>
          let (c, s') := appendAsync_resume r s in
          Some (set_pass p (mkPass (Done c) pend) s')
      | _ => None
      end
  | BusDeliver d =>
      if listening s then Some (snd (onAnnotationSelectionChange d s)) else None
  | EntityUpdate a d c =>
      let e := entity (entities s) a in
      Some (set_entities
              (<[a := mkAnnot d c (onPointerDownAction e) (onPointerEnterAction e)
                        (onPointerLeaveAction e)]> (entities s)) s)
  end.

(** An event that is not enabled leaves the state as it is. *)
Definition step (e : Event) (s : State) : State := default s (step_opt e s).

(** A schedule, first event first. *)
Definition run (evs : list Event) (s : State) : State := foldl (fun s e => step e s) s evs.

(** A schedule all of whose events are enabled when their turn comes. *)
Fixpoint run_opt (evs : list Event) (s : State) : option State :=
  match evs with
  | [] => Some s
  | e :: evs' => match step_opt e s with
                 | Some s' => run_opt evs' s'
                 | None => None
                 end
  end.

Definition last_fetched (s : State) : list AnnotId := default [] (head (fetched s)).

Definition installed (a : AnnotId) (s : State) : Prop :=
  actions (entity (entities s) a)
  = (Some (DispatchSelectionRequest a), Some (DispatchFocusRequest (Some a)),
     Some (DispatchFocusRequest None)).

Definition count_call (c : Call) (s : State) : nat :=
  length (filter (fun c' => c' = c) (calls s)).

(** ** Predicates on states *)

(** The fields no part of [processAnnotation] writes. *)
Record task_frame (s s' : State) : Prop := mkTaskFrame {
  tf_pageInfo : _pageInfo s' = _pageInfo s;
  tf_viewbox : _viewbox s' = _viewbox s;
  tf_container : _container s' = _container s;
  tf_destroyed : _destroyed s' = _destroyed s;
  tf_div_parent : div_parent s' = div_parent s;
  tf_div_touchAction : div_touchAction s' = div_touchAction s;
  tf_listening : listening s' = listening s;
  tf_passes : passes s' = passes s;
  tf_fetched : fetched s' = fetched s }.

(** An entity with a task suspended at its render. *)
Definition pending_in (a : nat) (s : State) : Prop :=
  ∃ ps, ps ∈ passes s ∧ a ∈ pending ps.

(** Until [destroy], every entity that is tracked or being rendered
    carries the callbacks of this view. *)
Definition callbacks_inv (s : State) : Prop :=
  _destroyed s = false →
  ∀ a, a ∈ _rendered s ∨ pending_in a s → installed a s.

(** The container is held until [destroy] and released by it; a render
    pass returns false only in a destroyed view. *)
Record lifecycle_inv (s : State) : Prop := mkLifecycle {
  lc_alive : _destroyed s = false → _container s = Some tt;
  lc_dead : _destroyed s = true →
            _container s = None ∧ div_parent s = None ∧ _rendered s = ∅;
  lc_false : ∀ ps, ps ∈ passes s → phase ps = Settled (Normal false) →
             _destroyed s = true }.

(** The state [destroy] leaves, whatever the state it is called in. *)
Definition dead (s : State) : Prop :=
  _destroyed s = true ∧ _container s = None ∧ _rendered s = ∅.

(** What is on screen: where the container is attached, its children,
    its touch-action style and the children of the svg. *)
Definition visible (s : State)
  : option nat * list DivChild * string * list nat :=
  (div_parent s, div_children s, div_touchAction s, svg_children s).


(** Every entity that is tracked or being rendered came with some fetch. *)
Definition fetched_inv (s : State) : Prop :=
  ∀ a, a ∈ _rendered s ∨ pending_in a s → ∃ l, l ∈ fetched s ∧ a ∈ l.

(** While [appendAsync] has been entered at most once, at most one list
    has been fetched, and none while that activation awaits the fetch. *)
Definition single_inv (s : State) : Prop :=
  match passes s with
  | [] => fetched s = []
  | [ps] => (phase ps = AwaitFetch → fetched s = []) ∧ length (fetched s) ≤ 1
  | _ => True
  end.

(** ** Scenarios *)

(** A page of 612 by 792 points whose service holds no entity yet, two
    render results and the host element 7. *)
Definition page_view : State :=
  new_view (mkService ∅) (mkPageInfo 1) (mkVec2 612 792).
Definition result_a : AnnotationRenderResult := mkResult 10 20.
Definition result_b : AnnotationRenderResult := mkResult 11 21.

(** Annotations 1 and 2 are fetched and rendered, the pass and
    [appendAsync] complete. *)
Definition two_rendered : list Event :=
  [CallAppend 7; FetchSettle 0 (FetchList [1; 2]);
   RenderSettle 0 1 (Some result_b); RenderSettle 0 0 (Some result_a);
   PassJoin 0; AppendResume 0].

(** Annotations 1 and 2 are fetched; their renders have not settled. *)
Definition two_pending : list Event :=
  [CallAppend 7; FetchSettle 0 (FetchList [1; 2])].

(** After a first complete pass that rendered annotation 1, a second
    [appendAsync] fetches an empty list. *)
Definition second_fetch_empty : list Event :=
  [CallAppend 7; FetchSettle 0 (FetchList [1]); RenderSettle 0 0 (Some result_a);
   PassJoin 0; AppendResume 0; CallAppend 7; FetchSettle 1 (FetchList [])].

(** After a first complete pass rendered annotation 1 and its result was
    cached on the entity, [appendAsync] is entered again. *)
Definition second_append_cached : list Event :=
  [CallAppend 7; FetchSettle 0 (FetchList [1]);
   EntityUpdate 1 false (Some result_a); RenderSettle 0 0 (Some result_a);
   PassJoin 0; AppendResume 0; CallAppend 7].


(** ** Rejected activations and complete passes *)

(** An activation whose render pass or [appendAsync] was rejected with a
    TypeError. *)
Definition type_error (ps : Pass) : Prop :=
  phase ps = Settled (Abrupt TypeError) ∨ phase ps = Done (Abrupt TypeError).

(** The renders of the pending tasks of activation [p] settle in the order
    of the list, each with the result [f] gives for its entity. *)
Definition settle_in_order (p : nat) (f : nat → AnnotationRenderResult)
    (todo : list nat) : list Event :=
  map (fun a => RenderSettle p 0 (Some (f a))) todo.

(** [appendAsync(parent)] from its call to its end, as activation [p]: the
    fetch settles with [l] and the renders of [todo] settle in order. *)
Definition complete_pass (parent p : nat) (l todo : list nat)
    (f : nat → AnnotationRenderResult) : list Event :=
  [CallAppend parent; FetchSettle p (FetchList l)]
  ++ settle_in_order p f todo ++ [PassJoin p; AppendResume p].

(** ** Tactics *)

Ltac unfold_js :=
  unfold processAnnotation_finish, container_append, renderAsync, clear,
    remove, destroy, bind, write, ret, throw in *.

(** * Properties *)

(** ** The entity store *)

Section Store.
Implicit Types (m : gmap nat RenderableAnnotation) (a b : nat).

Lemma entity_insert_eq a e m : entity (<[a := e]> m) a = e.
Proof. unfold entity. by rewrite lookup_insert_eq. Qed.

Lemma entity_insert_ne a b e m : a ≠ b → entity (<[a := e]> m) b = entity m b.
Proof. intros Hab. unfold entity. by rewrite lookup_insert_ne. Qed.

Lemma install_actions_eq a m :
  actions (entity (install_actions a m) a)
  = (Some (DispatchSelectionRequest a), Some (DispatchFocusRequest (Some a)),
     Some (DispatchFocusRequest None)).
Proof. unfold install_actions. by rewrite entity_insert_eq. Qed.

Lemma install_actions_ne a b m :
  a ≠ b → entity (install_actions a m) b = entity m b.
Proof. apply entity_insert_ne. Qed.

(** Installing the callbacks writes no other field of any entity. *)
Lemma install_actions_data a b m :
  deleted (entity (install_actions a m) b) = deleted (entity m b)
  ∧ lastRenderResult (entity (install_actions a m) b)
    = lastRenderResult (entity m b).
Proof.
  destruct (decide (a = b)) as [->|Hab].
  - unfold install_actions. by rewrite entity_insert_eq.
  - by rewrite install_actions_ne.
Qed.

Lemma clear_actions_eq a m :
  actions (entity (clear_actions a m) a) = (None, None, None).
Proof. unfold clear_actions. by rewrite entity_insert_eq. Qed.

Lemma clear_actions_ne a b m :
  a ≠ b → entity (clear_actions a m) b = entity m b.
Proof. apply entity_insert_ne. Qed.

(** The [forEach] of [destroy] reaches every element of the set. *)
Lemma foldr_clear_actions a (l : list nat) m :
  a ∈ l → actions (entity (foldr clear_actions m l) a) = (None, None, None).
Proof.
  induction l as [|b l IH]; intros Hin.
  - by apply elem_of_nil in Hin.
  - simpl. destruct (decide (b = a)) as [->|Hne].
    + apply clear_actions_eq.
    + rewrite clear_actions_ne by done. apply IH.
      apply elem_of_cons in Hin as [Heq|Hin]; [congruence | done].
Qed.

(** It leaves the entities outside the set as they are. *)
Lemma foldr_clear_actions_other a (l : list nat) m :
  a ∉ l → entity (foldr clear_actions m l) a = entity m a.
Proof.
  induction l as [|b l IH]; intros Hnin; [done|].
  simpl. apply not_elem_of_cons in Hnin as [Hne Hnin].
  rewrite clear_actions_ne by done. by apply IH.
Qed.
End Store.

(** ** [dom_append] *)

Lemma elem_of_dom_append {A} `{EqDecision A} (n m : A) (l : list A) :
  m ∈ dom_append n l ↔ m = n ∨ m ∈ l.
Proof.
  unfold dom_append. rewrite elem_of_app, list_elem_of_filter, list_elem_of_singleton.
  destruct (decide (m = n)); tauto.
Qed.

(** The appended node is the last child, and occurs once. *)
Lemma dom_append_last {A} `{EqDecision A} (n : A) (l : list A) :
  last (dom_append n l) = Some n ∧ n ∉ filter (fun m => m ≠ n) l.
Proof.
  split.
  - unfold dom_append. by rewrite last_snoc.
  - rewrite list_elem_of_filter. tauto.
Qed.

(** ** What a render task can write *)

Lemma task_frame_refl s : task_frame s s.
Proof. by split. Qed.

Lemma task_frame_trans s1 s2 s3 :
  task_frame s1 s2 → task_frame s2 s3 → task_frame s1 s3.
Proof. intros [] []. split; congruence. Qed.

Lemma processAnnotation_finish_frame a r s :
  task_frame s (snd (processAnnotation_finish a r s)).
Proof.
  unfold_js. destruct r as [r|]; [|apply task_frame_refl].
  destruct (_destroyed s) eqn:Hd; [apply task_frame_refl|].
  simpl. destruct (_container s) eqn:Hc; by split.
Qed.

(** A result that arrives after [destroy], or no result, changes nothing. *)
Lemma processAnnotation_finish_discard a r s :
  _destroyed s = true ∨ r = None →
  processAnnotation_finish a r s = (Normal tt, s).
Proof.
  intros [Hd| ->]; unfold processAnnotation_finish; [|done].
  rewrite Hd. by destruct r.
Qed.

(** Otherwise the entity is tracked first, and the two fragments follow
    when there is a container to append to. *)
Lemma processAnnotation_finish_rendered a r s :
  _destroyed s = false →
  _rendered (snd (processAnnotation_finish a (Some r) s)) = {[a]} ∪ _rendered s.
Proof.
  intros Hd. unfold_js. rewrite Hd. simpl. by destruct (_container s).
Qed.

Lemma processAnnotation_finish_append a r s :
  _destroyed s = false → _container s = Some tt →
  processAnnotation_finish a (Some r) s
  = (Normal tt,
     set_div_children (dom_append (ContentNode (content r)) (div_children s))
       (set_svg_children (dom_append (controls r) (svg_children s))
          (set_rendered ({[a]} ∪ _rendered s) s))).
Proof. intros Hd Hc. unfold_js. rewrite Hd. simpl. by rewrite Hc. Qed.

Lemma processAnnotation_finish_store a r s :
  entities (snd (processAnnotation_finish a r s)) = entities s
  ∧ calls (snd (processAnnotation_finish a r s)) = calls s.
Proof.
  unfold_js. destruct r as [r|]; [|done].
  destruct (_destroyed s); [done|]. simpl. by destruct (_container s).
Qed.

Lemma processAnnotation_finish_mono a r s :
  _rendered s ⊆ _rendered (snd (processAnnotation_finish a r s)).
Proof.
  destruct r as [r|], (_destroyed s) eqn:Hd;
    try (rewrite processAnnotation_finish_discard by auto; done).
  rewrite processAnnotation_finish_rendered by done. set_solver.
Qed.

(** *** [processAnnotation] up to its first await *)

Lemma processAnnotation_enter_frame a s :
  task_frame s (snd (processAnnotation_enter a s)).
Proof.
  unfold processAnnotation_enter. destruct (decide (a ∈ _rendered s)).
  - destruct (lastRenderResult _) as [r|]; [|by split].
    pose proof (processAnnotation_finish_frame a (Some r) s) as Hf.
    by destruct (processAnnotation_finish a (Some r) s).
  - by split.
Qed.

(** The synchronous part tracks nothing new: it only reaches the end of
    [processAnnotation] for an entity that is tracked already. *)
Lemma processAnnotation_enter_rendered a s :
  _rendered (snd (processAnnotation_enter a s)) = _rendered s.
Proof.
  unfold processAnnotation_enter. destruct (decide (a ∈ _rendered s)) as [Hin|]; [|done].
  destruct (lastRenderResult _) as [r|]; [|done].
  destruct (_destroyed s) eqn:Hd.
  - by rewrite processAnnotation_finish_discard by auto.
  - pose proof (processAnnotation_finish_rendered a r s Hd) as Hr.
    destruct (processAnnotation_finish a (Some r) s). simpl in *.
    rewrite Hr. set_solver.
Qed.

Lemma processAnnotation_enter_data a b s :
  deleted (entity (entities (snd (processAnnotation_enter a s))) b)
  = deleted (entity (entities s) b)
  ∧ lastRenderResult (entity (entities (snd (processAnnotation_enter a s))) b)
    = lastRenderResult (entity (entities s) b).
Proof.
  unfold processAnnotation_enter. destruct (decide (a ∈ _rendered s)).
  - destruct (lastRenderResult (entity (entities s) a)) as [r|]; [|done].
    pose proof (processAnnotation_finish_store a (Some r) s) as [He _].
    destruct (processAnnotation_finish a (Some r) s). simpl in *. by rewrite He.
  - simpl. apply install_actions_data.
Qed.

(** An entity that is tracked is left as it is, whichever entity is being
    processed. *)
Lemma processAnnotation_enter_tracked a b s :
  b ∈ _rendered s →
  entity (entities (snd (processAnnotation_enter a s))) b = entity (entities s) b.
Proof.
  intros Hb. unfold processAnnotation_enter. destruct (decide (a ∈ _rendered s)).
  - destruct (lastRenderResult (entity (entities s) a)) as [r|]; [|done].
    pose proof (processAnnotation_finish_store a (Some r) s) as [He _].
    destruct (processAnnotation_finish a (Some r) s). simpl in *. by rewrite He.
  - simpl. apply install_actions_ne. intros ->. contradiction.
Qed.

Lemma processAnnotation_enter_installed a b s :
  installed b s → installed b (snd (processAnnotation_enter a s)).
Proof.
  unfold installed, processAnnotation_enter. intros Hb.
  destruct (decide (a ∈ _rendered s)).
  - destruct (lastRenderResult (entity (entities s) a)) as [r|]; [|done].
    pose proof (processAnnotation_finish_store a (Some r) s) as [He _].
    destruct (processAnnotation_finish a (Some r) s). simpl in *. by rewrite He.
  - simpl. destruct (decide (a = b)) as [->|Hne].
    + apply install_actions_eq.
    + by rewrite install_actions_ne.
Qed.

(** A task that suspends is one for a tracked entity without a cached
    result, or one that has just installed the callbacks. *)
Lemma processAnnotation_enter_suspended a s :
  fst (processAnnotation_enter a s) = Suspended →
  (a ∈ _rendered s ∧ lastRenderResult (entity (entities s) a) = None)
  ∨ ((a ∉ _rendered s) ∧ installed a (snd (processAnnotation_enter a s))).
Proof.
  unfold processAnnotation_enter. destruct (decide (a ∈ _rendered s)).
  - destruct (lastRenderResult (entity (entities s) a)) as [r|]; [|by left].
    by destruct (processAnnotation_finish a (Some r) s).
  - intros _. right. split; [done|]. apply install_actions_eq.
Qed.

(** What is recorded: for a tracked entity with a cached result nothing,
    for a tracked entity without one a render, for any other entity an
    installation and a render. *)
Lemma processAnnotation_enter_calls a s :
  calls (snd (processAnnotation_enter a s))
  = calls s ++
    (if decide (a ∈ _rendered s)
     then match lastRenderResult (entity (entities s) a) with
          | Some _ => []
          | None => [RenderAsync a]
          end
     else [InstallActions a; RenderAsync a]).
Proof.
  unfold processAnnotation_enter. destruct (decide (a ∈ _rendered s)).
  - destruct (lastRenderResult (entity (entities s) a)) as [r|]; [|done].
    pose proof (processAnnotation_finish_store a (Some r) s) as [_ Hc].
    destruct (processAnnotation_finish a (Some r) s). simpl in *.
    by rewrite Hc, app_nil_r.
  - simpl. by rewrite <- app_assoc.
Qed.

(** Children are appended or moved to the end, never taken away. *)
Lemma processAnnotation_finish_children a r s :
  (∀ n, n ∈ div_children s → n ∈ div_children (snd (processAnnotation_finish a r s)))
  ∧ (∀ n, n ∈ svg_children s → n ∈ svg_children (snd (processAnnotation_finish a r s))).
Proof.
  unfold_js. destruct r as [r|]; [|done].
  destruct (_destroyed s); [done|]. simpl.
  destruct (_container s); simpl; split; intros n Hn;
    rewrite ?elem_of_dom_append; auto.
Qed.

Lemma processAnnotation_enter_children a s :
  (∀ n, n ∈ div_children s → n ∈ div_children (snd (processAnnotation_enter a s)))
  ∧ (∀ n, n ∈ svg_children s → n ∈ svg_children (snd (processAnnotation_enter a s))).
Proof.
  unfold processAnnotation_enter. destruct (decide (a ∈ _rendered s)); [|done].
  destruct (lastRenderResult (entity (entities s) a)) as [r|]; [|done].
  pose proof (processAnnotation_finish_children a (Some r) s) as H.
  by destruct (processAnnotation_finish a (Some r) s).
Qed.

(** *** The fan-out *)

Lemma fan_out_state a l s :
  (fan_out (a :: l) s).2 = (fan_out l (processAnnotation_enter a s).2).2.
Proof.
  simpl. destruct (processAnnotation_enter a s) as [t s1]. simpl.
  destruct (fan_out l s1) as [[susp err] s2]. by destruct t as [|[]].
Qed.

Lemma fan_out_suspended a l s :
  (fan_out (a :: l) s).1.1
  = match (processAnnotation_enter a s).1 with
    | Suspended => a :: (fan_out l (processAnnotation_enter a s).2).1.1
    | Finished _ => (fan_out l (processAnnotation_enter a s).2).1.1
    end.
Proof.
  simpl. destruct (processAnnotation_enter a s) as [t s1]. simpl.
  destruct (fan_out l s1) as [[susp err] s2]. by destruct t as [|[]].
Qed.

Lemma fan_out_frame l s : task_frame s (fan_out l s).2.
Proof.
  revert s. induction l as [|a l IH]; intros s; [apply task_frame_refl|].
  rewrite fan_out_state. eapply task_frame_trans; [|apply IH].
  apply processAnnotation_enter_frame.
Qed.

(** The synchronous part of a pass leaves the tracked set as it is. *)
Lemma fan_out_rendered l s : _rendered (fan_out l s).2 = _rendered s.
Proof.
  revert s. induction l as [|a l IH]; intros s; [done|].
  by rewrite fan_out_state, IH, processAnnotation_enter_rendered.
Qed.

Lemma fan_out_data l b s :
  deleted (entity (entities (fan_out l s).2) b) = deleted (entity (entities s) b)
  ∧ lastRenderResult (entity (entities (fan_out l s).2) b)
    = lastRenderResult (entity (entities s) b).
Proof.
  revert s. induction l as [|a l IH]; intros s; [done|].
  rewrite fan_out_state. destruct (IH (processAnnotation_enter a s).2) as [-> ->].
  apply processAnnotation_enter_data.
Qed.

Lemma fan_out_tracked l b s :
  b ∈ _rendered s → entity (entities (fan_out l s).2) b = entity (entities s) b.
Proof.
  revert s. induction l as [|a l IH]; intros s Hb; [done|].
  rewrite fan_out_state, IH by (by rewrite processAnnotation_enter_rendered).
  by apply processAnnotation_enter_tracked.
Qed.

Lemma fan_out_installed l b s : installed b s → installed b (fan_out l s).2.
Proof.
  revert s. induction l as [|a l IH]; intros s Hb; [done|].
  rewrite fan_out_state. by apply IH, processAnnotation_enter_installed.
Qed.

(** Every task left suspended belongs to the list, and its entity is
    tracked or has the callbacks of this view. *)
Lemma fan_out_suspended_spec l b s :
  b ∈ (fan_out l s).1.1 →
  b ∈ l ∧ (b ∈ _rendered s ∨ installed b (fan_out l s).2).
Proof.
  revert s. induction l as [|a l IH]; intros s.
  - simpl. by intros ?%elem_of_nil.
  - rewrite fan_out_suspended, fan_out_state.
    destruct (processAnnotation_enter a s).1 eqn:Ht.
    + intros [->|Hin]%elem_of_cons.
      * split; [by left|].
        destruct (processAnnotation_enter_suspended a s Ht) as [[? _]|[_ Hi]]; [by left|].
        right. by apply fan_out_installed.
      * destruct (IH _ Hin) as [? Hb]. split; [by right|].
        by rewrite processAnnotation_enter_rendered in Hb.
    + intros Hin. destruct (IH _ Hin) as [? Hb]. split; [by right|].
      by rewrite processAnnotation_enter_rendered in Hb.
Qed.

Lemma count_call_app c s l :
  length (filter (fun c' => c' = c) (calls s ++ l))
  = count_call c s + length (filter (fun c' => c' = c) l).
Proof. unfold count_call. by rewrite filter_app, length_app. Qed.

(** No callback is installed on a tracked entity, and no render is asked
    of a tracked entity that has a cached result. *)
Lemma processAnnotation_enter_count a b s :
  b ∈ _rendered s →
  count_call (InstallActions b) (processAnnotation_enter a s).2
  = count_call (InstallActions b) s
  ∧ (lastRenderResult (entity (entities s) b) ≠ None →
     count_call (RenderAsync b) (processAnnotation_enter a s).2
     = count_call (RenderAsync b) s).
Proof.
  intros Hb. unfold count_call at 1 3.
  rewrite processAnnotation_enter_calls, !count_call_app.
  destruct (decide (a ∈ _rendered s)) as [Ha|Ha].
  - destruct (lastRenderResult (entity (entities s) a)) as [r|] eqn:Hr.
    + simpl. split; [lia|]. intros _. lia.
    + split.
      * rewrite filter_cons_False, filter_nil by done. simpl. lia.
      * intros Hc. rewrite filter_cons_False, filter_nil; [simpl; lia|].
        intros [= ->]. contradiction.
  - assert (a ≠ b) by (intros ->; contradiction).
    split; [|intros _];
      rewrite !filter_cons_False, filter_nil by congruence; simpl; lia.
Qed.

Lemma fan_out_count l b s :
  b ∈ _rendered s →
  count_call (InstallActions b) (fan_out l s).2 = count_call (InstallActions b) s
  ∧ (lastRenderResult (entity (entities s) b) ≠ None →
     count_call (RenderAsync b) (fan_out l s).2 = count_call (RenderAsync b) s).
Proof.
  revert s. induction l as [|a l IH]; intros s Hb; [done|].
  rewrite fan_out_state.
  destruct (processAnnotation_enter_count a b s Hb) as [Hi Hr].
  destruct (IH (processAnnotation_enter a s).2) as [Hi' Hr'];
    [by rewrite processAnnotation_enter_rendered|].
  split; [congruence|]. intros Hc. rewrite Hr', Hr; [done..|].
  by destruct (processAnnotation_enter_data a b s) as [_ ->].
Qed.

(** ** Case analysis on an event

    [step e s] is [s], or what the piece of code named by [e] makes of
    [s] when an activation is suspended where [e] says. *)
Lemma step_cases (P : State → Prop) e s :
  P s →
  (∀ parent, e = CallAppend parent → P (appendAsync_enter parent s)) →
  (e = CallRemove → P (remove s).2) →
  (e = CallDestroy → P (destroy s).2) →
  (∀ p o pend, e = FetchSettle p o →
     passes s !! p = Some (mkPass AwaitFetch pend) →
     P (set_pass p (mkPass (renderAnnotationsAsync_fetched o s).1.1
                      (pend ++ (renderAnnotationsAsync_fetched o s).1.2))
          (renderAnnotationsAsync_fetched o s).2)) →
  (∀ p k r ph pend a, e = RenderSettle p k r →
     passes s !! p = Some (mkPass ph pend) → pend !! k = Some a →
     P (set_pass p
          (mkPass match (processAnnotation_finish a r s).1, ph with
                  | Abrupt err, AwaitAll => Settled (Abrupt err)
                  | _, _ => ph
                  end (delete k pend))
          (processAnnotation_finish a r s).2)) →
  (∀ p k ph pend a, e = RenderReject p k →
     passes s !! p = Some (mkPass ph pend) → pend !! k = Some a →
     P (set_pass p
          (mkPass match ph with
                  | AwaitAll => Settled (Abrupt Rejection)
                  | _ => ph
                  end (delete k pend)) s)) →
  (∀ p, e = PassJoin p → passes s !! p = Some (mkPass AwaitAll []) →
     P (set_pass p (mkPass (Settled (renderAnnotationsAsync_joined s).1) [])
          (renderAnnotationsAsync_joined s).2)) →
  (∀ p r pend, e = AppendResume p →
     passes s !! p = Some (mkPass (Settled r) pend) →
     P (set_pass p (mkPass (Done (appendAsync_resume r s).1) pend)
          (appendAsync_resume r s).2)) →
  (∀ d, e = BusDeliver d → listening s = true →
     P (onAnnotationSelectionChange d s).2) →
  (∀ a d c, e = EntityUpdate a d c →
     P (set_entities
          (<[a := mkAnnot d c (onPointerDownAction (entity (entities s) a))
                    (onPointerEnterAction (entity (entities s) a))
                    (onPointerLeaveAction (entity (entities s) a))]> (entities s)) s)) →
  P (step e s).
Proof.
  intros Hs Happ Hrem Hdes Hfetch Hrender Hreject Hjoin Hresume Hbus Hupd.
  unfold step, step_opt. destruct e as [parent| | |p o|p k r|p k|p|p|d|a d c]; simpl.
  - by apply Happ.
  - by apply Hrem.
  - by apply Hdes.
  - destruct (passes s !! p) as [[[] pend]|] eqn:Hp; simpl; try done.
    specialize (Hfetch p o pend eq_refl Hp).
    by destruct (renderAnnotationsAsync_fetched o s) as [[ph susp] s'].
  - destruct (passes s !! p) as [[ph pend]|] eqn:Hp; simpl; [|done].
    destruct (pend !! k) as [a|] eqn:Hk; simpl; [|done].
    specialize (Hrender p k r ph pend a eq_refl Hp Hk).
    by destruct (processAnnotation_finish a r s) as [c s'].
  - destruct (passes s !! p) as [[ph pend]|] eqn:Hp; simpl; [|done].
    destruct (pend !! k) as [a|] eqn:Hk; simpl; [|done].
    by apply (Hreject p k ph pend a).
  - destruct (passes s !! p) as [[[] [|]]|] eqn:Hp; simpl; try done.
    specialize (Hjoin p eq_refl Hp).
    by destruct (renderAnnotationsAsync_joined s) as [c s'].
  - destruct (passes s !! p) as [[[] pend]|] eqn:Hp; simpl; try done.
    specialize (Hresume p r pend eq_refl Hp).
    by destruct (appendAsync_resume r s) as [c s'].
  - destruct (listening s) eqn:Hl; simpl; [|done]. by apply Hbus.
  - by apply Hupd.
Qed.

Lemma run_snoc evs e s : run (evs ++ [e]) s = step e (run evs s).
Proof. unfold run. by rewrite foldl_app. Qed.

Lemma run_app evs evs' s : run (evs ++ evs') s = run evs' (run evs s).
Proof. unfold run. by rewrite foldl_app. Qed.

(** A property that holds at the start and is kept by every event holds
    after every schedule. *)
Lemma run_invariant (P : State → Prop) evs s :
  P s → (∀ e s, P s → P (step e s)) → P (run evs s).
Proof.
  intros Hs Hstep. induction evs as [|e evs IH] using rev_ind; [done|].
  rewrite run_snoc. by apply Hstep.
Qed.

Lemma run_opt_run evs s s' : run_opt evs s = Some s' → run evs s = s'.
Proof.
  revert s. induction evs as [|e evs IH]; intros s; simpl; [congruence|].
  unfold step. destruct (step_opt e s); simpl; [apply IH|done].
Qed.

Lemma elem_of_set_pass ps p v s :
  ps ∈ passes (set_pass p v s) → ps = v ∨ ps ∈ passes s.
Proof.
  simpl. intros [q Hq]%list_elem_of_lookup.
  apply list_lookup_insert_Some in Hq as [(_ & -> & _)|[_ Hq]]; [by left|].
  right. by eapply list_elem_of_lookup_2.
Qed.

(** ** The synchronous pieces, written out *)

Lemma appendAsync_enter_spec parent s :
  appendAsync_enter parent s
  = if _destroyed s then s
    else match _container s with
         | Some _ =>
             set_passes (passes s ++ [mkPass AwaitFetch []])
               (set_svg_children []
                  (set_div_children [] (set_div_parent (Some parent) s)))
         | None =>
             set_passes (passes s ++ [mkPass (Settled (Abrupt TypeError)) []]) s
         end.
Proof.
  unfold appendAsync_enter. destruct (_destroyed s) eqn:Hd; [done|].
  unfold renderAnnotationsAsync_enter. unfold_js.
  destruct (_container s) eqn:Hc; simpl; rewrite Hd; simpl; by rewrite Hc.
Qed.

Lemma remove_spec s :
  remove s
  = (Normal tt,
     set_listening false
       match _container s with
       | Some _ => set_div_parent None s
       | None => s
       end).
Proof. done. Qed.

Lemma destroy_spec s :
  destroy s
  = (Normal tt,
     set_rendered ∅
       (set_entities (foldr clear_actions (entities s) (elements (_rendered s)))
          (set_container None
             (set_listening false
                match _container s with
                | Some _ => set_div_parent None (set_destroyed true s)
                | None => set_destroyed true s
                end)))).
Proof. unfold_js. simpl. by destruct (_container s). Qed.

Lemma renderAnnotationsAsync_joined_spec s :
  renderAnnotationsAsync_joined s
  = if _destroyed s then (Normal false, s)
    else match _container s with
         | Some _ =>
             (Normal true, set_div_children (dom_append SvgNode (div_children s)) s)
         | None => (Abrupt TypeError, s)
         end.
Proof.
  unfold renderAnnotationsAsync_joined, container_append.
  destruct (_destroyed s); [done|]. by destruct (_container s).
Qed.

(** The state a settled fetch leaves: the list is recorded and the tasks
    of the entities not marked deleted are started. *)
Lemma renderAnnotationsAsync_fetched_state o s :
  (renderAnnotationsAsync_fetched o s).2
  = match o with
    | FetchList l =>
        (fan_out (filter (fun a => deleted (entity (entities s) a) = false) l)
           (set_fetched (l :: fetched s) s)).2
    | _ => s
    end.
Proof.
  destruct o as [l| |]; [|done..]. unfold renderAnnotationsAsync_fetched. simpl.
  destruct (fan_out _ _) as [[susp err] s1]. by destruct err.
Qed.

Lemma renderAnnotationsAsync_fetched_tasks o s :
  (renderAnnotationsAsync_fetched o s).1.2
  = match o with
    | FetchList l =>
        (fan_out (filter (fun a => deleted (entity (entities s) a) = false) l)
           (set_fetched (l :: fetched s) s)).1.1
    | _ => []
    end.
Proof.
  destruct o as [l| |]; [|done..]. unfold renderAnnotationsAsync_fetched. simpl.
  destruct (fan_out _ _) as [[susp err] s1]. by destruct err.
Qed.

Lemma renderAnnotationsAsync_fetched_frame o s :
  _pageInfo (renderAnnotationsAsync_fetched o s).2 = _pageInfo s
  ∧ _container (renderAnnotationsAsync_fetched o s).2 = _container s
  ∧ _destroyed (renderAnnotationsAsync_fetched o s).2 = _destroyed s
  ∧ _rendered (renderAnnotationsAsync_fetched o s).2 = _rendered s
  ∧ div_parent (renderAnnotationsAsync_fetched o s).2 = div_parent s
  ∧ div_touchAction (renderAnnotationsAsync_fetched o s).2 = div_touchAction s
  ∧ listening (renderAnnotationsAsync_fetched o s).2 = listening s
  ∧ passes (renderAnnotationsAsync_fetched o s).2 = passes s.
Proof.
  rewrite renderAnnotationsAsync_fetched_state. destruct o as [l| |]; [|done..].
  rewrite fan_out_rendered. by destruct (fan_out_frame
    (filter (fun a => deleted (entity (entities s) a) = false) l)
    (set_fetched (l :: fetched s) s)).
Qed.

(** ** The tracked set and the callbacks between destructions *)

Lemma renderAnnotationsAsync_fetched_installed o a s :
  installed a s → installed a (renderAnnotationsAsync_fetched o s).2.
Proof.
  rewrite renderAnnotationsAsync_fetched_state. destruct o as [l| |]; [|done..].
  intros Ha. by apply fan_out_installed.
Qed.

Lemma entity_update_actions a b d c m :
  actions (entity (<[a := mkAnnot d c (onPointerDownAction (entity m a))
                            (onPointerEnterAction (entity m a))
                            (onPointerLeaveAction (entity m a))]> m) b)
  = actions (entity m b).
Proof.
  destruct (decide (a = b)) as [->|Hne].
  - by rewrite entity_insert_eq.
  - by rewrite entity_insert_ne.
Qed.

(** Only [destroy] takes an entity out of the tracked set. *)
Lemma step_rendered_mono e s : e ≠ CallDestroy → _rendered s ⊆ _rendered (step e s).
Proof.
  intros He. apply step_cases; try done.
  - intros parent _. rewrite appendAsync_enter_spec.
    destruct (_destroyed s); [done|]. by destruct (_container s).
  - intros _. simpl. by destruct (_container s).
  - intros p o pend _ _. simpl.
    by destruct (renderAnnotationsAsync_fetched_frame o s) as (_&_&_&->&_).
  - intros p k r ph pend a _ _ _. simpl. apply processAnnotation_finish_mono.
  - intros p _ _. rewrite renderAnnotationsAsync_joined_spec.
    destruct (_destroyed s); [done|]. by destruct (_container s).
  - intros p r pend _ _. simpl. destruct r as [[]|]; simpl; [done| |done].
    by destruct (_container s).
  - intros d _ _. unfold onAnnotationSelectionChange.
    destruct (negb _ && _); [|done].
    destruct (_container s); [|done]. by destruct (detail_annotations d) as [[|]|].
Qed.

(** Only [destroy] takes the callbacks of this view off an entity. *)
Lemma step_installed e a s :
  e ≠ CallDestroy → installed a s → installed a (step e s).
Proof.
  intros He Ha. apply step_cases; try done.
  - intros parent _. rewrite appendAsync_enter_spec.
    destruct (_destroyed s); [done|]. by destruct (_container s).
  - intros _. simpl. by destruct (_container s).
  - intros p o pend _ _. by apply (renderAnnotationsAsync_fetched_installed o) in Ha.
  - intros p k r ph pend b _ _ _. unfold installed in *. simpl.
    by destruct (processAnnotation_finish_store b r s) as [-> _].
  - intros p _ _. rewrite renderAnnotationsAsync_joined_spec.
    destruct (_destroyed s); [done|]. by destruct (_container s).
  - intros p r pend _ _. simpl. destruct r as [[]|]; simpl; [done| |done].
    by destruct (_container s).
  - intros d _ _. unfold onAnnotationSelectionChange.
    destruct (negb _ && _); [|done].
    destruct (_container s); [|done]. by destruct (detail_annotations d) as [[|]|].
  - intros b d c _. unfold installed in *. simpl. by rewrite entity_update_actions.
Qed.

Lemma pending_in_lookup a p ps s :
  passes s !! p = Some ps → a ∈ pending ps → pending_in a s.
Proof. intros Hp Ha. exists ps. split; [by eapply list_elem_of_lookup_2|done]. Qed.

Lemma pending_in_delete a p k ph ph' pend s :
  passes s !! p = Some (mkPass ph pend) →
  pending_in a (set_pass p (mkPass ph' (delete k pend)) s) → pending_in a s.
Proof.
  intros Hp (ps & [->|Hps]%elem_of_set_pass & Ha).
  - eapply pending_in_lookup; [done|]. by eapply list_elem_of_delete_inv.
  - by exists ps.
Qed.

Lemma callbacks_inv_step e s : callbacks_inv s → callbacks_inv (step e s).
Proof.
  intros Hinv. apply step_cases; try done.
  - intros parent _. rewrite appendAsync_enter_spec.
    destruct (_destroyed s) eqn:Hd; [done|].
    assert (∀ ph v a, pending_in a (set_passes (passes s ++ [mkPass ph []]) v) →
                      pending_in a s) as Hpend.
    { intros ph v a (ps & [Hps| ->%list_elem_of_singleton]%elem_of_app & Ha).
      - by exists ps.
      - by apply elem_of_nil in Ha. }
    destruct (_container s); intros _ a [Ha|Ha]; apply (Hinv Hd a); eauto.
  - intros _. rewrite remove_spec. simpl. destruct (_container s); exact Hinv.
  - intros _. rewrite destroy_spec. intros Hd. simpl in Hd.
    by destruct (_container s).
  - intros p o pend _ Hp Hd a Ha.
    destruct (renderAnnotationsAsync_fetched_frame o s) as (_&_&Hd'&Hr&_&_&_&Hps).
    simpl in Hd. rewrite Hd' in Hd.
    assert (installed a (renderAnnotationsAsync_fetched o s).2) as Hgoal; [|done].
    destruct Ha as [Ha|(ps & Hps' & Ha)].
    + simpl in Ha. rewrite Hr in Ha.
      apply renderAnnotationsAsync_fetched_installed, (Hinv Hd). by left.
    + apply elem_of_set_pass in Hps' as [->|Hps'].
      * simpl in Ha. apply elem_of_app in Ha as [Ha|Ha].
        { apply renderAnnotationsAsync_fetched_installed, (Hinv Hd). right.
          by eapply pending_in_lookup. }
        rewrite renderAnnotationsAsync_fetched_tasks in Ha.
        rewrite renderAnnotationsAsync_fetched_state.
        destruct o as [l| |]; try by apply elem_of_nil in Ha.
        apply fan_out_suspended_spec in Ha as [_ [Ha|Ha]]; [|done].
        apply fan_out_installed. apply (Hinv Hd). by left.
      * rewrite Hps in Hps'.
        apply renderAnnotationsAsync_fetched_installed, (Hinv Hd). right.
        by exists ps.
  - intros p k r ph pend b _ Hp Hk Hd a Ha.
    destruct (processAnnotation_finish_frame b r s) as [_ _ _ Hd' _ _ _ Hps _].
    simpl in Hd. rewrite Hd' in Hd.
    assert (installed a s) as Hgoal.
    { apply (Hinv Hd). destruct Ha as [Ha|(ps & Hps' & Ha)].
      - simpl in Ha. destruct r as [r|].
        + rewrite processAnnotation_finish_rendered in Ha by done.
          apply elem_of_union in Ha as [->%elem_of_singleton|Ha]; [|by left].
          right. eapply pending_in_lookup; [done|]. by eapply list_elem_of_lookup_2.
        + rewrite processAnnotation_finish_discard in Ha by auto. by left.
      - right. apply elem_of_set_pass in Hps' as [->|Hps'].
        + eapply pending_in_lookup; [done|]. by eapply list_elem_of_delete_inv.
        + rewrite Hps in Hps'. by exists ps. }
    unfold installed in *. simpl.
    by destruct (processAnnotation_finish_store b r s) as [-> _].
  - intros p k ph pend b _ Hp Hk Hd a Ha. apply (Hinv Hd a).
    destruct Ha as [Ha|Ha]; [by left|right]. by eapply pending_in_delete.
  - intros p _ Hp. rewrite renderAnnotationsAsync_joined_spec.
    destruct (_destroyed s) eqn:Hd; [intros Hd'; simpl in Hd'; congruence|].
    assert (∀ c v a, pending_in a (set_pass p (mkPass c []) v) →
                     passes v = passes s → pending_in a s) as Hpend.
    { intros c v a (ps & [->|Hps]%elem_of_set_pass & Ha) Hv.
      - by apply elem_of_nil in Ha.
      - rewrite Hv in Hps. by exists ps. }
    destruct (_container s); intros _ a [Ha|Ha]; apply (Hinv Hd a); eauto.
  - intros p r pend _ Hp.
    assert (∀ c v a, pending_in a (set_pass p (mkPass c pend) v) →
                     passes v = passes s → pending_in a s) as Hpend.
    { intros c v a (ps & [->|Hps]%elem_of_set_pass & Ha) Hv.
      - by eapply pending_in_lookup.
      - rewrite Hv in Hps. by exists ps. }
    destruct r as [[]|]; simpl; [| destruct (_container s)|];
      intros Hd a [Ha|Ha]; apply (Hinv Hd a); eauto.
  - intros d _ _. unfold onAnnotationSelectionChange.
    destruct (negb _ && _); [|done].
    destruct (_container s); [|done]. by destruct (detail_annotations d) as [[|]|].
  - intros b d c _ Hd a Ha. unfold installed. simpl. rewrite entity_update_actions.
    by apply (Hinv Hd a).
Qed.

(** ** The life cycle

    Before [destroy] the view has its container; after it the container
    is released and detached and nothing is tracked.  A render pass
    returns false only once the view is destroyed. *)

Lemma renderAnnotationsAsync_fetched_phase o s :
  (renderAnnotationsAsync_fetched o s).1.1 = AwaitAll
  ∨ ∃ e, (renderAnnotationsAsync_fetched o s).1.1 = Settled (Abrupt e).
Proof.
  destruct o as [l| |]; simpl; [|right; eauto..].
  destruct (fan_out _ _) as [[susp [e|]] s1]; simpl; eauto.
Qed.

Lemma lifecycle_inv_new svc info dims : lifecycle_inv (new_view svc info dims).
Proof.
  split; simpl; [done..|]. by intros ps ?%elem_of_nil.
Qed.

Lemma elem_of_insert_inv {A} (x v : A) (p : nat) (l : list A) :
  x ∈ <[p := v]> l → x = v ∨ x ∈ l.
Proof.
  intros [q Hq]%list_elem_of_lookup.
  apply list_lookup_insert_Some in Hq as [(_ & -> & _)|[_ Hq]]; [by left|].
  right. by eapply list_elem_of_lookup_2.
Qed.

Lemma lifecycle_cases s :
  lifecycle_inv s →
  (_destroyed s = true ∧ _container s = None ∧ div_parent s = None ∧ _rendered s = ∅)
  ∨ (_destroyed s = false ∧ _container s = Some tt).
Proof.
  intros [Ha Hd _]. destruct (_destroyed s); [left|right]; split; auto.
Qed.

Lemma lifecycle_inv_step e s : lifecycle_inv s → lifecycle_inv (step e s).
Proof.
  intros Hinv. pose proof (lc_false _ Hinv) as Hf.
  assert (∀ v, passes v = passes s → ∀ ps, ps ∈ passes v →
            phase ps = Settled (Normal false) → _destroyed s = true) as Hf'.
  { intros v -> ps. apply Hf. }
  pose proof (lifecycle_cases s Hinv) as Hcase.
  apply step_cases; try done.
  - intros parent _. rewrite appendAsync_enter_spec.
    destruct Hcase as [(Hdes & _)|(Hdes & Hc)]; rewrite Hdes; [done|].
    rewrite Hc. split; simpl; [auto|congruence|].
    intros ps [Hps| ->%list_elem_of_singleton]%elem_of_app; [|done].
    intros Hph. specialize (Hf ps Hps Hph). congruence.
  - intros _. rewrite remove_spec. simpl.
    destruct Hcase as [(Hdes & Hc & Hpar & Hr)|(Hdes & Hc)]; rewrite Hc;
      (split; simpl; [intros; congruence| |by apply Hf']);
      intros Hdes'; repeat split; congruence.
  - intros _. rewrite destroy_spec. simpl.
    destruct Hcase as [(Hdes & Hc & Hpar & Hr)|(Hdes & Hc)]; rewrite Hc;
      (split; simpl; [intros; congruence| |done]);
      intros _; repeat split; congruence.
  - intros p o pend _ Hp.
    destruct (renderAnnotationsAsync_fetched_frame o s)
      as (_ & Hc' & Hdes' & Hr' & Hpar' & _ & _ & Hps).
    split; simpl; rewrite ?Hc', ?Hdes', ?Hr', ?Hpar'; [apply Hinv..|].
    intros ps [->|Hin]%elem_of_set_pass.
    + simpl. by destruct (renderAnnotationsAsync_fetched_phase o s) as [->|[e' ->]].
    + rewrite Hps in Hin. by apply Hf.
  - intros p k r ph pend a _ Hp Hk.
    destruct (processAnnotation_finish_frame a r s) as [_ _ Hc' Hdes' Hpar' _ _ Hps _].
    split; simpl; rewrite ?Hc', ?Hdes', ?Hpar'; [apply Hinv| |].
    + intros Hdead. rewrite processAnnotation_finish_discard by auto. by apply Hinv.
    + intros ps [->|Hin]%elem_of_set_pass.
      * simpl. intros Hph. apply (Hf (mkPass ph pend)).
        { by eapply list_elem_of_lookup_2. }
        simpl. destruct (processAnnotation_finish a r s).1, ph; by simplify_eq.
      * rewrite Hps in Hin. by apply Hf.
  - intros p k ph pend a _ Hp Hk. split; simpl; [apply Hinv..|].
    intros ps [->|Hin]%elem_of_insert_inv; [|by apply Hf].
    simpl. intros Hph. apply (Hf (mkPass ph pend)); [by eapply list_elem_of_lookup_2|].
    simpl. by destruct ph.
  - intros p _ Hp. rewrite renderAnnotationsAsync_joined_spec.
    destruct Hcase as [(Hdes & Hc & Hpar & Hr)|(Hdes & Hc)]; rewrite Hdes, ?Hc;
      (split; simpl; [auto; congruence..|]).
    + done.
    + intros ps [->|Hin]%elem_of_set_pass; [done|]. by apply Hf.
  - intros p r pend _ Hp.
    assert (∀ c ps, ps ∈ <[p := mkPass (Done c) pend]> (passes s) →
              phase ps = Settled (Normal false) → _destroyed s = true) as Hdone.
    { intros c ps [->|Hin]%elem_of_insert_inv; [done|]. by apply Hf. }
    destruct r as [[]|]; simpl.
    + split; simpl; [apply Hinv..|]. apply Hdone.
    + destruct Hcase as [(Hdes & Hc & Hpar & Hr)|(Hdes & Hc)]; rewrite Hc;
        (split; simpl; [intros; congruence| |by apply Hdone]);
        intros Hdes'; repeat split; congruence.
    + split; simpl; [apply Hinv..|]. apply Hdone.
  - intros d _ _. unfold onAnnotationSelectionChange.
    destruct (negb _ && _); [|done].
    destruct (_container s) eqn:Hc; [|done].
    destruct Hinv. by destruct (detail_annotations d) as [[|]|].
  - intros a d c _. by destruct Hinv.
Qed.

Lemma lifecycle_inv_run svc info dims evs :
  lifecycle_inv (run evs (new_view svc info dims)).
Proof.
  apply run_invariant; [apply lifecycle_inv_new|]. intros e s. apply lifecycle_inv_step.
Qed.

Lemma callbacks_inv_run svc info dims evs :
  callbacks_inv (run evs (new_view svc info dims)).
Proof.
  apply run_invariant; [|intros e s; apply callbacks_inv_step].
  intros _ a [Ha|(ps & Hps & _)]; simpl in *.
  - by apply elem_of_empty in Ha.
  - by apply elem_of_nil in Hps.
Qed.

(** ** After [destroy] *)

Lemma destroy_dead s : dead (step CallDestroy s).
Proof.
  change (step CallDestroy s) with (destroy s).2.
  rewrite destroy_spec. simpl. by destruct (_container s).
Qed.

Lemma processAnnotation_enter_destroyed a s :
  _destroyed s = true → visible (processAnnotation_enter a s).2 = visible s.
Proof.
  intros Hd. unfold processAnnotation_enter.
  destruct (decide (a ∈ _rendered s)); [|done].
  destruct (lastRenderResult (entity (entities s) a)) as [r|]; [|done].
  by rewrite processAnnotation_finish_discard by auto.
Qed.

Lemma fan_out_destroyed l s :
  _destroyed s = true → visible (fan_out l s).2 = visible s.
Proof.
  revert s. induction l as [|a l IH]; intros s Hd; [done|].
  rewrite fan_out_state, IH, processAnnotation_enter_destroyed; [done..|].
  by rewrite (tf_destroyed _ _ (processAnnotation_enter_frame a s)).
Qed.

(** Once destroyed, the view stays destroyed and nothing visible changes:
    every continuation that resumes finds the flag set. *)
Lemma step_dead e s : dead s → dead (step e s) ∧ visible (step e s) = visible s.
Proof.
  intros (Hd & Hc & Hr). apply step_cases; try done.
  - intros parent _. rewrite appendAsync_enter_spec. by rewrite Hd.
  - intros _. rewrite remove_spec. simpl. by rewrite Hc.
  - intros _. rewrite destroy_spec. simpl. by rewrite Hc.
  - intros p o pend _ _.
    destruct (renderAnnotationsAsync_fetched_frame o s)
      as (_ & Hc' & Hd' & Hr' & _).
    split; [unfold dead; simpl; by rewrite Hc', Hd', Hr'|].
    rewrite renderAnnotationsAsync_fetched_state.
    destruct o as [l| |]; [|done..].
    etrans; [|apply (fan_out_destroyed
      (filter (fun a => deleted (entity (entities s) a) = false) l)
      (set_fetched (l :: fetched s) s) Hd)].
    done.
  - intros p k r ph pend a _ _ _.
    by rewrite processAnnotation_finish_discard by auto.
  - intros p _ _. rewrite renderAnnotationsAsync_joined_spec. by rewrite Hd.
  - intros p r pend _ _. destruct r as [[]|]; simpl; [done| |done]. by rewrite Hc.
  - intros d _ _. unfold onAnnotationSelectionChange. by rewrite Hd.
Qed.

Lemma run_dead evs s : dead s → dead (run evs s) ∧ visible (run evs s) = visible s.
Proof.
  intros Hs. induction evs as [|e evs [IH1 IH2]] using rev_ind; [done|].
  rewrite run_snoc. destruct (step_dead e _ IH1) as [? ->]. by split.
Qed.

(** ** The listener *)





(** ** The tracked set and the fetched lists *)

Lemma renderAnnotationsAsync_fetched_history o s :
  fetched (renderAnnotationsAsync_fetched o s).2
  = match o with
    | FetchList l => l :: fetched s
    | _ => fetched s
    end.
Proof.
  rewrite renderAnnotationsAsync_fetched_state. destruct o as [l| |]; [|done..].
  by rewrite (tf_fetched _ _ (fan_out_frame _ _)).
Qed.

Lemma fetched_inv_step e s : fetched_inv s → fetched_inv (step e s).
Proof.
  intros Hinv. apply step_cases; try done.
  - intros parent _. rewrite appendAsync_enter_spec.
    destruct (_destroyed s) eqn:Hd; [done|].
    assert (∀ ph v a, pending_in a (set_passes (passes s ++ [mkPass ph []]) v) →
                      pending_in a s) as Hpend.
    { intros ph v a (ps & [Hps| ->%list_elem_of_singleton]%elem_of_app & Ha).
      - by exists ps.
      - by apply elem_of_nil in Ha. }
    destruct (_container s); intros a [Ha|Ha]; apply (Hinv a); eauto.
  - intros _. rewrite remove_spec. simpl. destruct (_container s); exact Hinv.
  - intros _. rewrite destroy_spec. simpl.
    destruct (_container s); intros a [Ha|Ha];
      (by apply elem_of_empty in Ha) || (apply (Hinv a); by right).
  - intros p o pend _ Hp a Ha.
    destruct (renderAnnotationsAsync_fetched_frame o s) as (_&_&_&Hr&_&_&_&Hps).
    simpl. rewrite renderAnnotationsAsync_fetched_history.
    assert (a ∈ _rendered s ∨ pending_in a s
            ∨ ∃ l, o = FetchList l ∧ a ∈ l) as [Hold|[Hold|(l & -> & Hl)]].
    { destruct Ha as [Ha|(ps & Hps' & Ha)].
      - simpl in Ha. rewrite Hr in Ha. by left.
      - right. apply elem_of_insert_inv in Hps' as [->|Hps'].
        + simpl in Ha. apply elem_of_app in Ha as [Ha|Ha].
          { left. by eapply pending_in_lookup. }
          rewrite renderAnnotationsAsync_fetched_tasks in Ha.
          destruct o as [l| |]; try by apply elem_of_nil in Ha.
          right. exists l. split; [done|].
          apply fan_out_suspended_spec in Ha as [Ha _].
          by apply list_elem_of_filter in Ha as [_ Ha].
        + rewrite Hps in Hps'. left. by exists ps. }
    + destruct (Hinv a (or_introl Hold)) as (l & Hl & Hal). exists l.
      split; [|done]. destruct o; [by right|done..].
    + destruct (Hinv a (or_intror Hold)) as (l & Hl & Hal). exists l.
      split; [|done]. destruct o; [by right|done..].
    + exists l. split; [by left|done].
  - intros p k r ph pend b _ Hp Hk a Ha.
    destruct (processAnnotation_finish_frame b r s) as [_ _ _ _ _ _ _ Hps Hf].
    simpl. rewrite Hf. apply Hinv.
    destruct Ha as [Ha|(ps & Hps' & Ha)].
    + simpl in Ha. destruct r as [r|], (_destroyed s) eqn:Hd;
        try (rewrite processAnnotation_finish_discard in Ha by auto; by left).
      rewrite processAnnotation_finish_rendered in Ha by done.
      apply elem_of_union in Ha as [->%elem_of_singleton|Ha]; [|by left].
      right. eapply pending_in_lookup; [done|]. by eapply list_elem_of_lookup_2.
    + right. apply elem_of_insert_inv in Hps' as [->|Hps'].
      * eapply pending_in_lookup; [done|]. by eapply list_elem_of_delete_inv.
      * rewrite Hps in Hps'. by exists ps.
  - intros p k ph pend b _ Hp Hk a Ha. apply (Hinv a).
    destruct Ha as [Ha|Ha]; [by left|right]. by eapply pending_in_delete.
  - intros p _ Hp. rewrite renderAnnotationsAsync_joined_spec.
    assert (∀ c v a, pending_in a (set_pass p (mkPass c []) v) →
                     passes v = passes s → pending_in a s) as Hpend.
    { intros c v a (ps & [->|Hps]%elem_of_insert_inv & Ha) Hv.
      - by apply elem_of_nil in Ha.
      - rewrite Hv in Hps. by exists ps. }
    destruct (_destroyed s); [|destruct (_container s)];
      intros a [Ha|Ha]; apply (Hinv a); eauto.
  - intros p r pend _ Hp.
    assert (∀ c v a, pending_in a (set_pass p (mkPass c pend) v) →
                     passes v = passes s → pending_in a s) as Hpend.
    { intros c v a (ps & [->|Hps]%elem_of_insert_inv & Ha) Hv.
      - by eapply pending_in_lookup.
      - rewrite Hv in Hps. by exists ps. }
    destruct r as [[]|]; simpl; [| destruct (_container s)|];
      intros a [Ha|Ha]; apply (Hinv a); eauto.
  - intros d _ _. unfold onAnnotationSelectionChange.
    destruct (negb _ && _); [|done].
    destruct (_container s); [|done]. by destruct (detail_annotations d) as [[|]|].
Qed.

Lemma fetched_inv_run svc info dims evs :
  fetched_inv (run evs (new_view svc info dims)).
Proof.
  apply run_invariant; [|intros e s; apply fetched_inv_step].
  intros a [Ha|(ps & Hps & _)]; simpl in *.
  - by apply elem_of_empty in Ha.
  - by apply elem_of_nil in Hps.
Qed.

Lemma single_inv_insert p v w l (fs fs' : list (list nat)) :
  l !! p = Some w →
  (phase v = AwaitFetch → phase w = AwaitFetch ∧ fs' = fs) →
  ((phase w = AwaitFetch → fs = []) → length fs ≤ 1 → length fs' ≤ 1) →
  match l with
  | [] => fs = []
  | [ps] => (phase ps = AwaitFetch → fs = []) ∧ length fs ≤ 1
  | _ => True
  end →
  match <[p := v]> l with
  | [] => fs' = []
  | [ps] => (phase ps = AwaitFetch → fs' = []) ∧ length fs' ≤ 1
  | _ => True
  end.
Proof.
  intros Hp Hv Hlen. destruct l as [|ps [|ps' l]]; [done| |by destruct p as [|[|p]]].
  destruct p as [|p]; [|done]. simpl in *. injection Hp as ->.
  intros [Hfs Hle]. split; [|auto].
  intros Hph. destruct (Hv Hph) as [Hph' ->]. auto.
Qed.

Lemma single_inv_step e s : single_inv s → single_inv (step e s).
Proof.
  intros Hinv. apply step_cases; try done.
  - intros parent _. rewrite appendAsync_enter_spec.
    destruct (_destroyed s); [done|]. unfold single_inv in *.
    destruct (_container s); simpl; destruct (passes s) as [|ps [|ps' l]];
      simpl; try done; rewrite Hinv; split; simpl; auto.
  - intros _. rewrite remove_spec. simpl. destruct (_container s); exact Hinv.
  - intros _. rewrite destroy_spec. simpl. destruct (_container s); exact Hinv.
  - intros p o pend _ Hp. unfold single_inv in *. simpl.
    destruct (renderAnnotationsAsync_fetched_frame o s) as (_&_&_&_&_&_&_&->).
    rewrite renderAnnotationsAsync_fetched_history.
    eapply single_inv_insert; [done| | |exact Hinv]; simpl.
    + by destruct (renderAnnotationsAsync_fetched_phase o s) as [->|[e' ->]].
    + intros Hfs _. rewrite (Hfs eq_refl). destruct o; simpl; lia.
  - intros p k r ph pend a _ Hp Hk. unfold single_inv in *. simpl.
    destruct (processAnnotation_finish_frame a r s) as [_ _ _ _ _ _ _ -> ->].
    eapply single_inv_insert; [done| |done|exact Hinv]; simpl.
    intros Hph. split; [|done]. by destruct (processAnnotation_finish a r s).1, ph.
  - intros p k ph pend a _ Hp Hk. unfold single_inv in *. simpl.
    eapply single_inv_insert; [done| |done|exact Hinv]; simpl.
    intros Hph. split; [|done]. by destruct ph.
  - intros p _ Hp. rewrite renderAnnotationsAsync_joined_spec.
    unfold single_inv in *.
    destruct (_destroyed s); [|destruct (_container s)]; simpl;
      (eapply single_inv_insert; [done| | |exact Hinv]; by simpl).
  - intros p r pend _ Hp. unfold single_inv in *.
    destruct r as [[]|]; simpl; [|destruct (_container s); simpl|];
      (eapply single_inv_insert; [done| | |exact Hinv]; by simpl).
  - intros d _ _. unfold onAnnotationSelectionChange.
    destruct (negb _ && _); [|done].
    destruct (_container s); [|done]. by destruct (detail_annotations d) as [[|]|].
Qed.

Lemma single_inv_run svc info dims evs :
  single_inv (run evs (new_view svc info dims)).
Proof. apply run_invariant; [done|]. intros e s. apply single_inv_step. Qed.

(** ** Reuse of the cached result *)

Lemma fan_out_children l s :
  (∀ n, n ∈ div_children s → n ∈ div_children (fan_out l s).2)
  ∧ (∀ n, n ∈ svg_children s → n ∈ svg_children (fan_out l s).2).
Proof.
  revert s. induction l as [|a l IH]; intros s; [done|].
  rewrite fan_out_state.
  destruct (IH (processAnnotation_enter a s).2) as [IH1 IH2].
  destruct (processAnnotation_enter_children a s) as [H1 H2]. split; auto.
Qed.

(** For a tracked entity with a cached result, the fragments appended are
    those of the cached result. *)
Lemma processAnnotation_enter_reuse a r s :
  a ∈ _rendered s → lastRenderResult (entity (entities s) a) = Some r →
  _destroyed s = false → _container s = Some tt →
  ContentNode (content r) ∈ div_children (processAnnotation_enter a s).2
  ∧ controls r ∈ svg_children (processAnnotation_enter a s).2.
Proof.
  intros Ha Hr Hd Hc. unfold processAnnotation_enter.
  rewrite decide_True by done. rewrite Hr.
  rewrite processAnnotation_finish_append by done. simpl.
  rewrite !elem_of_dom_append. auto.
Qed.

Lemma fan_out_reuse l a r s :
  a ∈ l → a ∈ _rendered s → lastRenderResult (entity (entities s) a) = Some r →
  _destroyed s = false → _container s = Some tt →
  ContentNode (content r) ∈ div_children (fan_out l s).2
  ∧ controls r ∈ svg_children (fan_out l s).2.
Proof.
  revert s. induction l as [|b l IH]; intros s Hin Ha Hr Hd Hc.
  { by apply elem_of_nil in Hin. }
  rewrite fan_out_state. apply elem_of_cons in Hin as [<-|Hin].
  - destruct (processAnnotation_enter_reuse a r s Ha Hr Hd Hc) as [H1 H2].
    destruct (fan_out_children l (processAnnotation_enter a s).2) as [M1 M2].
    auto.
  - destruct (processAnnotation_enter_frame b s) as [_ _ Hc' Hd' _ _ _ _ _].
    apply IH; [done| | |congruence..].
    + by rewrite processAnnotation_enter_rendered.
    + by destruct (processAnnotation_enter_data b a s) as [_ ->].
Qed.

(** Calls are recorded, never taken back. *)
Lemma processAnnotation_enter_count_le c a s :
  count_call c s ≤ count_call c (processAnnotation_enter a s).2.
Proof.
  unfold count_call at 2. rewrite processAnnotation_enter_calls, count_call_app. lia.
Qed.

Lemma fan_out_count_le c l s : count_call c s ≤ count_call c (fan_out l s).2.
Proof.
  revert s. induction l as [|a l IH]; intros s; [done|].
  rewrite fan_out_state. etrans; [apply (processAnnotation_enter_count_le c a)|apply IH].
Qed.

(** A tracked entity without a cached result is rendered afresh. *)
Lemma fan_out_fresh l a s :
  a ∈ l → a ∈ _rendered s → lastRenderResult (entity (entities s) a) = None →
  count_call (RenderAsync a) s < count_call (RenderAsync a) (fan_out l s).2.
Proof.
  revert s. induction l as [|b l IH]; intros s Hin Ha Hr.
  { by apply elem_of_nil in Hin. }
  rewrite fan_out_state. apply elem_of_cons in Hin as [<-|Hin].
  - eapply Nat.lt_le_trans; [|apply fan_out_count_le].
    unfold count_call at 2. rewrite processAnnotation_enter_calls, count_call_app.
    rewrite decide_True by done. rewrite Hr.
    rewrite filter_cons_True by done. simpl. lia.
  - eapply Nat.le_lt_trans; [apply (processAnnotation_enter_count_le _ b)|].
    apply IH; [done| |].
    + by rewrite processAnnotation_enter_rendered.
    + by destruct (processAnnotation_enter_data b a s) as [_ ->].
Qed.

(** * The claims *)

(** C9. The constructor throws exactly when the document service, the
    page descriptor or the page dimensions are missing, and what it throws
    is the error of the argument check, [Error("Required argument not
    found")]; with the three present it returns the new view. *)
Theorem constructor_requires_arguments
    (docService : option DocumentService) (pageInfo : option PageInfo)
    (pageDimensions : option Vec2) :
  (docService = None ∨ pageInfo = None ∨ pageDimensions = None
   ↔ constructor docService pageInfo pageDimensions
     = Abrupt (JsError "Required argument not found"))
  ∧ ((∃ svc info dims, docService = Some svc ∧ pageInfo = Some info
                       ∧ pageDimensions = Some dims)
     ↔ ∃ s, constructor docService pageInfo pageDimensions = Normal s).
Proof.
  destruct docService as [svc|], pageInfo as [info|], pageDimensions as [dims|];
    simpl; (split; split);
    try (intros [?|[?|?]]; done); try (intros (? & ? & ? & ? & ? & ?); done);
    try (intros [? ?]; done); try done; eauto 10.
Qed.

(** C5. [destroy] sets the three callback slots of every tracked entity
    to null and leaves the tracked set empty. *)
Theorem destroy_clears_callbacks (s : State) (a : nat) :
  a ∈ _rendered s →
  onPointerDownAction (entity (entities (step CallDestroy s)) a) = None
  ∧ onPointerEnterAction (entity (entities (step CallDestroy s)) a) = None
  ∧ onPointerLeaveAction (entity (entities (step CallDestroy s)) a) = None
  ∧ _rendered (step CallDestroy s) = ∅.
Proof.
  intros Ha. change (step CallDestroy s) with (destroy s).2.
  rewrite destroy_spec. simpl.
  pose proof (foldr_clear_actions a (elements (_rendered s)) (entities s)) as Hclr.
  unfold actions in Hclr. rewrite elem_of_elements in Hclr.
  specialize (Hclr Ha). by simplify_eq.
Qed.

(** The scenario of C5: with annotations 1 and 2 tracked, [destroy] clears
    the slots of both and empties the set. *)
Lemma destroy_clears_callbacks_two :
  _rendered (run two_rendered page_view) = {[1; 2]}
  ∧ installed 1 (run two_rendered page_view)
  ∧ installed 2 (run two_rendered page_view)
  ∧ actions (entity (entities (step CallDestroy (run two_rendered page_view))) 1)
    = (None, None, None)
  ∧ actions (entity (entities (step CallDestroy (run two_rendered page_view))) 2)
    = (None, None, None)
  ∧ _rendered (step CallDestroy (run two_rendered page_view)) = ∅.
Proof.
  assert (1 ∈ _rendered (run two_rendered page_view)) as H1 by (vm_compute; reflexivity).
  assert (2 ∈ _rendered (run two_rendered page_view)) as H2 by (vm_compute; reflexivity).
  destruct (destroy_clears_callbacks _ 1 H1) as (A1 & B1 & C1 & D1).
  destruct (destroy_clears_callbacks _ 2 H2) as (A2 & B2 & C2 & _).
  unfold actions. rewrite A1, B1, C1, A2, B2, C2.
  repeat split; try done; vm_compute; reflexivity.
Defined.

(** C3. After [destroy], a render that completes finds the flag set: the
    task ends and nothing else happens.  The entity is not tracked, no
    fragment is appended to the container or to the svg, and this stays so
    under every later event. *)
Theorem render_after_destroy_is_discarded
    (s : State) (evs : list Event) (p k : nat) (r : AnnotationRenderResult)
    (ph : Phase) (pend : list nat) (a : nat) :
  let s1 := run evs (step CallDestroy s) in
  passes s1 !! p = Some (mkPass ph pend) →
  pend !! k = Some a →
  step_opt (RenderSettle p k (Some r)) s1
  = Some (set_pass p (mkPass ph (delete k pend)) s1)
  ∧ ∀ evs', let s2 := run evs' (step (RenderSettle p k (Some r)) s1) in
            (a ∉ _rendered s2)
            ∧ div_children s2 = div_children s1
            ∧ svg_children s2 = svg_children s1.
Proof.
  intros s1 Hp Hk.
  destruct (run_dead evs _ (destroy_dead s)) as [Hdead _]. fold s1 in Hdead.
  assert (step_opt (RenderSettle p k (Some r)) s1
          = Some (set_pass p (mkPass ph (delete k pend)) s1)) as Hstep.
  { unfold step_opt. rewrite Hp, Hk.
    rewrite processAnnotation_finish_discard by (left; apply Hdead).
    by destruct ph. }
  split; [done|]. intros evs' s2.
  destruct (step_dead (RenderSettle p k (Some r)) s1 Hdead) as [Hdead' Hvis].
  destruct (run_dead evs' _ Hdead') as [(_ & _ & Hr) Hvis']. fold s2 in Hr, Hvis'.
  rewrite Hvis in Hvis'. unfold visible in Hvis'. simplify_eq.
  split; [|done]. rewrite Hr. apply not_elem_of_empty.
Qed.

(** The scenario of C3: [destroy] runs while the renders of annotations 1
    and 2 are awaited; the render of 1 then completes with a result. *)
Lemma render_after_destroy_is_discarded_scenario :
  let s1 := run [] (step CallDestroy (run two_pending page_view)) in
  passes s1 !! 0 = Some (mkPass AwaitAll [1; 2])
  ∧ [1; 2] !! 0 = Some 1
  ∧ step_opt (RenderSettle 0 0 (Some result_a)) s1
    = Some (set_pass 0 (mkPass AwaitAll (delete 0 [1; 2])) s1)
  ∧ ∀ evs', let s2 := run evs' (step (RenderSettle 0 0 (Some result_a)) s1) in
            (1 ∉ _rendered s2)
            ∧ div_children s2 = div_children s1
            ∧ svg_children s2 = svg_children s1.
Proof.
  intros s1. split; [|split]; [vm_compute; reflexivity..|].
  apply (render_after_destroy_is_discarded (run two_pending page_view) [] 0 0
           result_a AwaitAll [1; 2] 1); vm_compute; reflexivity.
Defined.

(** C4. After [destroy], under any schedule: [appendAsync] returns at
    once and starts nothing, leaving the whole state as it is;
    [renderAnnotationsAsync] returns false at its first test, leaving the
    whole state as it is; [remove] completes without throwing and writes
    nothing but the registration of the listener on the bus, which it
    leaves off.  The tracked set, the container, the two surfaces and what
    is attached to the host are unchanged by all three. *)
Theorem calls_after_destroy_are_noops
    (s : State) (evs : list Event) (parent : nat) :
  let s1 := run evs (step CallDestroy s) in
  step_opt (CallAppend parent) s1 = Some s1
  ∧ renderAnnotationsAsync_enter s1 = (Settled (Normal false), s1)
  ∧ remove s1 = (Normal tt, set_listening false s1)
  ∧ _rendered (step CallRemove s1) = _rendered s1
  ∧ _container (step CallRemove s1) = _container s1
  ∧ visible (step CallRemove s1) = visible s1
  ∧ entities (step CallRemove s1) = entities s1.
Proof.
  intros s1.
  destruct (run_dead evs _ (destroy_dead s)) as [(Hd & Hc & Hr) _]. fold s1 in Hd, Hc, Hr.
  assert (remove s1 = (Normal tt, set_listening false s1)) as Hrem.
  { rewrite remove_spec. by rewrite Hc. }
  split; [|split; [|split]].
  - simpl. rewrite appendAsync_enter_spec. by rewrite Hd.
  - unfold renderAnnotationsAsync_enter. by rewrite Hd.
  - done.
  - change (step CallRemove s1) with (remove s1).2. by rewrite Hrem.
Qed.

(** C10. Between destructions the tracked set only grows.  In every
    state the view can reach, every schedule without [destroy] keeps each
    tracked entity tracked, with the three callbacks of this view in its
    slots; [clear] writes neither the tracked set nor the entities. *)
Theorem tracked_set_grows_until_destroy
    (svc : DocumentService) (info : PageInfo) (dims : Vec2)
    (evs evs' : list Event) :
  CallDestroy ∉ evs' →
  let s := run evs (new_view svc info dims) in
  (∀ a, a ∈ _rendered s →
        a ∈ _rendered (run evs' s) ∧ installed a s ∧ installed a (run evs' s))
  ∧ _rendered (clear s).2 = _rendered s
  ∧ entities (clear s).2 = entities s.
Proof.
  intros Hnd s. split.
  - intros a Ha.
    assert (installed a s) as Hi.
    { pose proof (lifecycle_inv_run svc info dims evs) as Hlc. fold s in Hlc.
      apply (callbacks_inv_run svc info dims evs); [|by left].
      destruct (_destroyed s) eqn:Hd; [|done].
      destruct (lc_dead _ Hlc Hd) as (_ & _ & Hr). rewrite Hr in Ha.
      by apply elem_of_empty in Ha. }
    split; [|split; [done|]]; revert Hnd;
      induction evs' as [|e evs' IH] using rev_ind; intros Hnd; try done;
      rewrite run_snoc; apply not_elem_of_app in Hnd as [Hnd He];
      apply not_elem_of_cons in He as [He _].
    + apply (step_rendered_mono e); [done|]. by apply IH.
    + apply step_installed; [done|]. by apply IH.
  - unfold clear, bind, write. by destruct (_container s).
Qed.

(** The scenario of C10: annotation 1, rendered by a first pass, is
    absent from the list a second pass fetches; it stays tracked with its
    callbacks. *)
Lemma tracked_set_grows_until_destroy_scenario :
  (CallDestroy ∉ [CallAppend 7; FetchSettle 1 (FetchList [])])
  ∧ 1 ∈ _rendered (run (take 5 second_fetch_empty) page_view)
  ∧ last_fetched (run second_fetch_empty page_view) = []
  ∧ 1 ∈ _rendered (run second_fetch_empty page_view)
  ∧ installed 1 (run second_fetch_empty page_view).
Proof.
  assert (CallDestroy ∉ [CallAppend 7; FetchSettle 1 (FetchList [])]) as Hnd.
  { intros Hin. repeat (apply elem_of_cons in Hin as [Hin|Hin]; [discriminate|]).
    by apply elem_of_nil in Hin. }
  assert (1 ∈ _rendered (run (take 5 second_fetch_empty) page_view)) as H1
    by (vm_compute; reflexivity).
  destruct (tracked_set_grows_until_destroy (mkService ∅) (mkPageInfo 1)
              (mkVec2 612 792) (take 5 second_fetch_empty)
              [CallAppend 7; FetchSettle 1 (FetchList [])] Hnd) as [Hkeep _].
  destruct (Hkeep 1 H1) as (Ha & _ & Hb).
  repeat split; try done.
Defined.

(** C1, as the code has it.  The tracked set is always within the lists
    fetched so far; it is within the list fetched last as long as
    [appendAsync] was entered at most once; and after [destroy] it is
    empty and stays empty. *)
Theorem tracked_within_fetched
    (svc : DocumentService) (info : PageInfo) (dims : Vec2) (evs : list Event) :
  let s := run evs (new_view svc info dims) in
  (∀ a, a ∈ _rendered s → ∃ l, l ∈ fetched s ∧ a ∈ l)
  ∧ (length (passes s) ≤ 1 → ∀ a, a ∈ _rendered s → a ∈ last_fetched s)
  ∧ (_destroyed s = true → _rendered s = ∅)
  ∧ (∀ evs', _rendered (run evs' (step CallDestroy s)) = ∅).
Proof.
  intros s.
  pose proof (fetched_inv_run svc info dims evs) as Hf. fold s in Hf.
  pose proof (single_inv_run svc info dims evs) as Hs. fold s in Hs.
  pose proof (lifecycle_inv_run svc info dims evs) as Hlc. fold s in Hlc.
  split; [|split; [|split]].
  - intros a Ha. apply Hf. by left.
  - intros Hlen a Ha. destruct (Hf a (or_introl Ha)) as (l & Hl & Hal).
    unfold single_inv in Hs. unfold last_fetched.
    destruct (passes s) as [|ps [|ps' ps'']]; simpl in Hlen; [| |lia].
    + rewrite Hs in Hl. by apply elem_of_nil in Hl.
    + destruct Hs as [_ Hs]. destruct (fetched s) as [|l0 [|l1 fs]]; simpl in *.
      * by apply elem_of_nil in Hl.
      * by apply list_elem_of_singleton in Hl as ->.
      * lia.
  - intros Hd. by destruct (lc_dead _ Hlc Hd) as (_ & _ & ?).
  - intros evs'. by destruct (run_dead evs' _ (destroy_dead s)) as [(_ & _ & ?) _].
Qed.

(** C1 as stated fails: after [second_fetch_empty] annotation 1 is
    tracked and the list fetched last is empty. *)
Lemma tracked_not_within_last_fetched :
  run_opt second_fetch_empty page_view = Some (run second_fetch_empty page_view)
  ∧ ¬ (∀ a, a ∈ _rendered (run second_fetch_empty page_view) →
            a ∈ last_fetched (run second_fetch_empty page_view)).
Proof.
  split; [vm_compute; reflexivity|].
  intros H. specialize (H 1). 
  assert (1 ∈ _rendered (run second_fetch_empty page_view)) as H1
    by (vm_compute; reflexivity).
  apply H in H1. vm_compute in H1. by apply elem_of_nil in H1.
Qed.

(** A state with one activation, for the second part of C1. *)
Lemma tracked_within_fetched_single :
  length (passes (run two_rendered page_view)) ≤ 1
  ∧ _rendered (run two_rendered page_view) = {[1; 2]}
  ∧ last_fetched (run two_rendered page_view) = [1; 2]
  ∧ ∀ a, a ∈ _rendered (run two_rendered page_view) →
         a ∈ last_fetched (run two_rendered page_view).
Proof.
  assert (length (passes (run two_rendered page_view)) ≤ 1) as Hlen
    by (vm_compute; lia).
  destruct (tracked_within_fetched (mkService ∅) (mkPageInfo 1) (mkVec2 612 792)
              two_rendered) as (_ & Hone & _).
  split; [done|]. split; [vm_compute; reflexivity|].
  split; [vm_compute; reflexivity|]. exact (Hone Hlen).
Defined.

(** C2, on the code.  When the fetch resolves to null, [filter] is called
    on null: the render pass rejects with a TypeError instead of returning
    true, [appendAsync] rejects with it, the container stays attached to
    the host and the listener is not registered. *)
Theorem null_fetch_rejects_the_pass :
  let s1 := run [CallAppend 7; FetchSettle 0 FetchNothing] page_view in
  let s2 := step (AppendResume 0) s1 in
  run_opt [CallAppend 7; FetchSettle 0 FetchNothing; AppendResume 0] page_view = Some s2
  ∧ passes s1 = [mkPass (Settled (Abrupt TypeError)) []]
  ∧ passes s2 = [mkPass (Done (Abrupt TypeError)) []]
  ∧ div_parent s2 = Some 7
  ∧ listening s2 = false.
Proof. vm_compute. done. Qed.

(** C6. When a fetch settles with a list, an entity that was tracked
    already gets no callback installed and keeps all its fields.  If it
    has a cached result, its render operation is not called and, provided
    it is in the list, not deleted, and the view is alive, the fragments of
    the cached result are on the two surfaces when the piece of code ends.
    Its render operation is called only if it has no cached result, and
    then it is called when the entity is in the list and not deleted. *)
Theorem tracked_entity_is_not_processed_twice
    (s : State) (p : nat) (pend l : list nat) (a : nat) :
  a ∈ _rendered s →
  passes s !! p = Some (mkPass AwaitFetch pend) →
  let s' := step (FetchSettle p (FetchList l)) s in
  count_call (InstallActions a) s' = count_call (InstallActions a) s
  ∧ entity (entities s') a = entity (entities s) a
  ∧ (∀ r, lastRenderResult (entity (entities s) a) = Some r →
       count_call (RenderAsync a) s' = count_call (RenderAsync a) s
       ∧ (a ∈ l → deleted (entity (entities s) a) = false →
          _destroyed s = false → _container s = Some tt →
          ContentNode (content r) ∈ div_children s'
          ∧ controls r ∈ svg_children s'))
  ∧ (count_call (RenderAsync a) s' ≠ count_call (RenderAsync a) s →
     lastRenderResult (entity (entities s) a) = None)
  ∧ (lastRenderResult (entity (entities s) a) = None →
     a ∈ l → deleted (entity (entities s) a) = false →
     count_call (RenderAsync a) s < count_call (RenderAsync a) s').
Proof.
  intros Ha Hp s'.
  set (annots := filter (fun a => deleted (entity (entities s) a) = false) l).
  set (s0 := set_fetched (l :: fetched s) s).
  assert (calls s' = calls (fan_out annots s0).2
          ∧ entities s' = entities (fan_out annots s0).2
          ∧ div_children s' = div_children (fan_out annots s0).2
          ∧ svg_children s' = svg_children (fan_out annots s0).2) as (Hc & He & Hdc & Hsc).
  { unfold s', step, step_opt. rewrite Hp.
    pose proof (renderAnnotationsAsync_fetched_state (FetchList l) s) as Hst.
    destruct (renderAnnotationsAsync_fetched (FetchList l) s) as [[ph susp] s1].
    simpl in *. by subst s1. }
  assert (∀ c, count_call c s' = count_call c (fan_out annots s0).2) as Hcount.
  { intros c. unfold count_call. by rewrite Hc. }
  destruct (fan_out_count annots a s0 Ha) as [Hi Hr].
  rewrite !Hcount, He, Hdc, Hsc. split; [done|]. split.
  { exact (fan_out_tracked annots a s0 Ha). }
  split; [|split].
  - intros r Hcache. split; [apply Hr; simpl; congruence|].
    intros Hl Hdel Hd Hcont. apply (fan_out_reuse annots a r s0); try done.
    apply list_elem_of_filter. by split.
  - intros Hne. destruct (lastRenderResult (entity (entities s) a)) eqn:Hcache; [|done].
    exfalso. apply Hne. apply Hr. simpl. congruence.
  - intros Hcache Hl Hdel. apply (fan_out_fresh annots a s0); try done.
    apply list_elem_of_filter. by split.
Qed.

(** The scenario of C6: the second pass fetches annotation 1 again.  One
    installation and one render are on record before and after, and the
    cached fragments are back on the surfaces [clear] had emptied. *)
Lemma tracked_entity_is_not_processed_twice_scenario :
  let s := run second_append_cached page_view in
  let s' := step (FetchSettle 1 (FetchList [1])) s in
  1 ∈ _rendered s
  ∧ passes s !! 1 = Some (mkPass AwaitFetch [])
  ∧ div_children s = [] ∧ svg_children s = []
  ∧ count_call (InstallActions 1) s = 1 ∧ count_call (RenderAsync 1) s = 1
  ∧ count_call (InstallActions 1) s' = 1 ∧ count_call (RenderAsync 1) s' = 1
  ∧ ContentNode 20 ∈ div_children s' ∧ 10 ∈ svg_children s'.
Proof.
  intros s s'.
  assert (1 ∈ _rendered s) as H1 by (vm_compute; reflexivity).
  assert (passes s !! 1 = Some (mkPass AwaitFetch [])) as H2 by (vm_compute; reflexivity).
  destruct (tracked_entity_is_not_processed_twice s 1 [] [1] 1 H1 H2)
    as (Hi & _ & Hc & _).
  destruct (Hc result_a) as [Hr Hfrag]; [vm_compute; reflexivity|].
  destruct Hfrag as [Hdiv Hsvg]; [by left|vm_compute; reflexivity..|].
  fold s' in Hi, Hr, Hdiv, Hsvg. rewrite Hi, Hr.
  repeat split; try done; vm_compute; reflexivity.
Defined.




(** C8, as the code has it.  When the fetch throws, the render pass does
    not return false: it rejects with what was thrown, and [appendAsync]
    rejects with it when it resumes.  Neither piece of code writes
    anything else: the container stays where it is, attached to the host
    [appendAsync] attached it to, and the listener is not registered. *)
Theorem fetch_throws_rejects_appendAsync
    (s : State) (p : nat) (pend : list nat) :
  passes s !! p = Some (mkPass AwaitFetch pend) →
  let s1 := step (FetchSettle p FetchThrows) s in
  let s2 := step (AppendResume p) s1 in
  passes s1 !! p = Some (mkPass (Settled (Abrupt Rejection)) pend)
  ∧ passes s2 !! p = Some (mkPass (Done (Abrupt Rejection)) pend)
  ∧ visible s2 = visible s
  ∧ listening s2 = listening s
  ∧ _rendered s2 = _rendered s
  ∧ entities s2 = entities s.
Proof.
  intros Hp s1 s2.
  assert (p < length (passes s)) as Hlt by (by eapply lookup_lt_Some).
  assert (s1 = set_pass p (mkPass (Settled (Abrupt Rejection)) pend) s) as Hs1.
  { unfold s1, step, step_opt. rewrite Hp. simpl. by rewrite app_nil_r. }
  assert (passes s1 !! p = Some (mkPass (Settled (Abrupt Rejection)) pend)) as Hp1.
  { rewrite Hs1. simpl. by apply list_lookup_insert_eq. }
  assert (s2 = set_pass p (mkPass (Done (Abrupt Rejection)) pend) s1) as Hs2.
  { unfold s2, step, step_opt. by rewrite Hp1. }
  split; [done|]. rewrite Hs2, Hs1. simpl. split; [|done].
  apply list_lookup_insert_eq. by rewrite length_insert.
Qed.

(** The scenario of C8 on a new view: the container is still attached to
    host 7 after [appendAsync] has rejected. *)
Lemma fetch_throws_rejects_appendAsync_scenario :
  let s := run [CallAppend 7] page_view in
  let s2 := step (AppendResume 0) (step (FetchSettle 0 FetchThrows) s) in
  passes s !! 0 = Some (mkPass AwaitFetch [])
  ∧ div_parent s = Some 7
  ∧ passes s2 !! 0 = Some (mkPass (Done (Abrupt Rejection)) [])
  ∧ visible s2 = visible s
  ∧ listening s2 = false.
Proof.
  intros s s2.
  assert (passes s !! 0 = Some (mkPass AwaitFetch [])) as Hp by (vm_compute; reflexivity).
  destruct (fetch_throws_rejects_appendAsync s 0 [] Hp) as (_ & H2 & Hv & Hl & _).
  fold s2 in H2, Hv, Hl. rewrite Hl. repeat split; try done.
Defined.

(** C8 as stated fails: the fetch throws, and the pass has not returned
    false nor is the container detached. *)
Lemma fetch_throws_leaves_container_attached :
  let s1 := run [CallAppend 7; FetchSettle 0 FetchThrows] page_view in
  let s2 := step (AppendResume 0) s1 in
  run_opt [CallAppend 7; FetchSettle 0 FetchThrows; AppendResume 0] page_view = Some s2
  ∧ passes s1 !! 0 = Some (mkPass (Settled (Abrupt Rejection)) [])
  ∧ div_parent s2 = Some 7
  ∧ ¬ (passes s1 !! 0 = Some (mkPass (Settled (Normal false)) [])
       ∧ div_parent s2 = None
       ∧ listening s2 = false).
Proof.
  split; [vm_compute; reflexivity|]. split; [vm_compute; reflexivity|].
  split; [vm_compute; reflexivity|].
  intros (H1 & _). vm_compute in H1. discriminate.
Qed.

(** * Further properties *)

(** ** [onAnnotationSelectionChange] *)

(** X1. In every state the view can reach, the handler completes without
    throwing and writes nothing but the touch-action style of the
    container.  On a live view a "select" event with at least one
    annotation sets the style to "none" and a "select" event with none
    resets it to the empty string; any other event, and any event on a
    destroyed view, leaves the state as it is. *)
Theorem selection_change_toggles_touch_action
    (svc : DocumentService) (info : PageInfo) (dims : Vec2) (evs : list Event)
    (d : AnnotEventDetail) :
  let s := run evs (new_view svc info dims) in
  onAnnotationSelectionChange d s
  = (Normal tt,
     if _destroyed s then s
     else if bool_decide (type d = "select") then
       match detail_annotations d with
       | Some (_ :: _) => set_div_touchAction "none" s
       | _ => set_div_touchAction "" s
       end
     else s).
Proof.
  intros s.
  pose proof (lifecycle_inv_run svc info dims evs) as Hlc. fold s in Hlc.
  unfold onAnnotationSelectionChange.
  destruct (_destroyed s) eqn:Hd; simpl; [done|].
  rewrite (lc_alive _ Hlc Hd).
  destruct (bool_decide (type d = "select")); [|done].
  by destruct (detail_annotations d) as [[|]|].
Qed.

(** ** [remove] *)

(** X2. [remove] never throws and is idempotent: a second call changes
    nothing.  It writes only the attachment of the container and the
    registration of the listener; the tracked set, the callbacks on the
    entities, the children of both surfaces, the container reference, the
    flag and the suspended activations stay as they are. *)
Theorem remove_is_idempotent (s : State) :
  (remove s).1 = Normal tt
  ∧ remove (remove s).2 = remove s
  ∧ listening (remove s).2 = false
  ∧ (_container s ≠ None → div_parent (remove s).2 = None)
  ∧ _rendered (remove s).2 = _rendered s
  ∧ entities (remove s).2 = entities s
  ∧ div_children (remove s).2 = div_children s
  ∧ svg_children (remove s).2 = svg_children s
  ∧ _container (remove s).2 = _container s
  ∧ _destroyed (remove s).2 = _destroyed s
  ∧ passes (remove s).2 = passes s.
Proof.
  rewrite !remove_spec. simpl. destruct (_container s) eqn:Hc; simpl; rewrite ?Hc; done.
Qed.

(** ** [destroy] *)

(** X3. [destroy] is idempotent: a second call leaves the state the first
    one produced. *)
Theorem destroy_is_idempotent (s : State) :
  step CallDestroy (step CallDestroy s) = step CallDestroy s.
Proof.
  change (step CallDestroy (step CallDestroy s)) with (destroy (destroy s).2).2.
  change (step CallDestroy s) with (destroy s).2.
  rewrite (destroy_spec (destroy s).2), (destroy_spec s). simpl.
  rewrite elements_empty. simpl. by destruct (_container s).
Qed.

Lemma dead_installed e a s : dead s → installed a s → installed a (step e s).
Proof.
  intros (Hd & Hc & Hr) Ha.
  destruct e; try (by apply step_installed).
  change (step CallDestroy s) with (destroy s).2. rewrite destroy_spec.
  unfold installed in *. simpl. by rewrite Hr, elements_empty.
Qed.

Lemma run_dead_installed evs a t :
  dead t → installed a t → installed a (run evs t).
Proof.
  intros Hdead Hi. induction evs as [|e evs IH] using rev_ind; [done|].
  rewrite run_snoc. apply dead_installed; [|done].
  by destruct (run_dead evs t Hdead).
Qed.

(** X4. [destroy] clears the slots of the tracked entities only: every
    other entity is left as it is.  So the callbacks installed for an
    entity whose render has not completed when [destroy] runs stay on that
    entity under every later schedule, further calls of [destroy]
    included. *)
Theorem destroy_leaves_untracked_callbacks
    (s : State) (a : nat) (evs : list Event) :
  a ∉ _rendered s →
  entity (entities (step CallDestroy s)) a = entity (entities s) a
  ∧ (installed a s → installed a (run evs (step CallDestroy s))).
Proof.
  intros Ha.
  assert (entity (entities (step CallDestroy s)) a = entity (entities s) a) as He.
  { change (step CallDestroy s) with (destroy s).2. rewrite destroy_spec. simpl.
    apply foldr_clear_actions_other. by rewrite elem_of_elements. }
  split; [done|]. intros Hi.
  assert (installed a (step CallDestroy s)) as Hi' by (unfold installed; by rewrite He).
  apply run_dead_installed; [apply destroy_dead|done].
Qed.

(** The scenario of X4: [destroy] runs while the renders of annotations 1
    and 2 are awaited; the callbacks stay on annotation 1, also after its
    render settles and [destroy] is called again. *)
Lemma destroy_leaves_untracked_callbacks_scenario :
  (1 ∉ _rendered (run two_pending page_view))
  ∧ installed 1 (run two_pending page_view)
  ∧ installed 1 (run [RenderSettle 0 0 (Some result_a); CallDestroy]
                   (step CallDestroy (run two_pending page_view))).
Proof.
  assert (1 ∉ _rendered (run two_pending page_view)) as H1.
  { intros H. vm_compute in H. discriminate. }
  assert (installed 1 (run two_pending page_view)) as H2 by (vm_compute; reflexivity).
  destruct (destroy_leaves_untracked_callbacks (run two_pending page_view) 1
              [RenderSettle 0 0 (Some result_a); CallDestroy] H1) as [_ H].
  split; [done|]. split; [done|]. exact (H H2).
Defined.

(** ** The fetch and the fan-out *)

Lemma processAnnotation_enter_other a b s :
  a ≠ b →
  entity (entities (processAnnotation_enter a s).2) b = entity (entities s) b
  ∧ count_call (InstallActions b) (processAnnotation_enter a s).2
    = count_call (InstallActions b) s
  ∧ count_call (RenderAsync b) (processAnnotation_enter a s).2
    = count_call (RenderAsync b) s.
Proof.
  intros Hne. split.
  - unfold processAnnotation_enter. destruct (decide (a ∈ _rendered s)).
    + destruct (lastRenderResult (entity (entities s) a)) as [r|]; [|done].
      pose proof (processAnnotation_finish_store a (Some r) s) as [He _].
      destruct (processAnnotation_finish a (Some r) s). simpl in *. by rewrite He.
    + simpl. by apply install_actions_ne.
  - unfold count_call at 1 3. rewrite processAnnotation_enter_calls, !count_call_app.
    destruct (decide (a ∈ _rendered s)); [destruct (lastRenderResult _)|];
      rewrite ?filter_cons_False, ?filter_nil by congruence; simpl; lia.
Qed.

Lemma fan_out_other l b s :
  b ∉ l →
  entity (entities (fan_out l s).2) b = entity (entities s) b
  ∧ count_call (InstallActions b) (fan_out l s).2 = count_call (InstallActions b) s
  ∧ count_call (RenderAsync b) (fan_out l s).2 = count_call (RenderAsync b) s.
Proof.
  revert s. induction l as [|a l IH]; intros s Hb; [done|].
  apply not_elem_of_cons in Hb as [Hne Hb]. rewrite fan_out_state.
  destruct (IH (processAnnotation_enter a s).2 Hb) as (-> & -> & ->).
  by apply processAnnotation_enter_other.
Qed.

Lemma fan_out_untracked l a s :
  a ∈ l → a ∉ _rendered s →
  a ∈ (fan_out l s).1.1
  ∧ installed a (fan_out l s).2
  ∧ count_call (InstallActions a) s < count_call (InstallActions a) (fan_out l s).2
  ∧ count_call (RenderAsync a) s < count_call (RenderAsync a) (fan_out l s).2.
Proof.
  revert s. induction l as [|b l IH]; intros s Hin Ha.
  { by apply elem_of_nil in Hin. }
  rewrite fan_out_state, fan_out_suspended.
  destruct (decide (b = a)) as [->|Hne].
  - assert (processAnnotation_enter a s
            = (Suspended,
               (renderAsync a (set_calls (calls s ++ [InstallActions a])
                  (set_entities (install_actions a (entities s)) s))).2)) as Hent.
    { unfold processAnnotation_enter. by rewrite decide_False. }
    rewrite Hent. simpl. split; [by left|]. split.
    + apply fan_out_installed. apply install_actions_eq.
    + split; (eapply Nat.lt_le_trans; [|apply fan_out_count_le]);
        unfold count_call; simpl; rewrite !filter_app, !length_app;
        repeat first [rewrite filter_cons_True by done
                     |rewrite filter_cons_False by done
                     |rewrite filter_nil];
        simpl; lia.
  - apply elem_of_cons in Hin as [?|Hin]; [congruence|].
    destruct (IH (processAnnotation_enter b s).2 Hin) as (H1 & H2 & H3 & H4).
    { by rewrite processAnnotation_enter_rendered. }
    split; [destruct (processAnnotation_enter b s).1; [by right|done]|].
    split; [done|].
    split; (eapply Nat.le_lt_trans; [apply (processAnnotation_enter_count_le _ b)|done]).
Qed.

(** What a settled fetch leaves, field by field. *)
Lemma step_fetch_list p pend l s :
  passes s !! p = Some (mkPass AwaitFetch pend) →
  let annots := filter (fun a => deleted (entity (entities s) a) = false) l in
  let t := (fan_out annots (set_fetched (l :: fetched s) s)).2 in
  let s' := step (FetchSettle p (FetchList l)) s in
  entities s' = entities t ∧ calls s' = calls t
  ∧ div_children s' = div_children t ∧ svg_children s' = svg_children t
  ∧ _rendered s' = _rendered s
  ∧ ∃ ph, passes s' !! p
          = Some (mkPass ph
                    (pend ++ (fan_out annots (set_fetched (l :: fetched s) s)).1.1)).
Proof.
  intros Hp annots t s'. unfold s', step, step_opt. rewrite Hp.
  pose proof (renderAnnotationsAsync_fetched_state (FetchList l) s) as Hst.
  pose proof (renderAnnotationsAsync_fetched_tasks (FetchList l) s) as Hts.
  pose proof (renderAnnotationsAsync_fetched_frame (FetchList l) s)
    as (_ & _ & _ & Hr & _ & _ & _ & Hps).
  destruct (renderAnnotationsAsync_fetched (FetchList l) s) as [[ph susp] s1].
  simpl in *. subst s1 susp. repeat split; try done.
  exists ph. rewrite Hps. apply list_lookup_insert_eq. by eapply lookup_lt_Some.
Qed.

(** X5. When a fetch settles with a list, an entity that is marked deleted
    at that moment, or that the list does not contain, is passed over: none
    of its fields is written, no installation and no render is recorded
    for it, and the tasks added to the pass do not include it. *)
Theorem deleted_entities_are_skipped
    (s : State) (p : nat) (pend l : list nat) (b : nat) :
  passes s !! p = Some (mkPass AwaitFetch pend) →
  deleted (entity (entities s) b) = true ∨ b ∉ l →
  let s' := step (FetchSettle p (FetchList l)) s in
  entity (entities s') b = entity (entities s) b
  ∧ count_call (InstallActions b) s' = count_call (InstallActions b) s
  ∧ count_call (RenderAsync b) s' = count_call (RenderAsync b) s
  ∧ ∃ ph susp, passes s' !! p = Some (mkPass ph (pend ++ susp)) ∧ b ∉ susp.
Proof.
  intros Hp Hb s'.
  set (annots := filter (fun a => deleted (entity (entities s) a) = false) l).
  set (s0 := set_fetched (l :: fetched s) s).
  assert (b ∉ annots) as Hnin.
  { unfold annots. rewrite list_elem_of_filter. intros [Hd Hl].
    destruct Hb as [Hb|Hb]; [congruence|done]. }
  destruct (step_fetch_list p pend l s Hp) as (He & Hc & _ & _ & _ & ph & Hph).
  fold s' annots s0 in He, Hc, Hph.
  destruct (fan_out_other annots b s0 Hnin) as (H1 & H2 & H3).
  unfold count_call in *. rewrite He, Hc.
  split; [done|]. split; [done|]. split; [done|].
  exists ph, (fan_out annots s0).1.1. split; [done|].
  intros Hin. by apply fan_out_suspended_spec in Hin as [Hin _].
Qed.

(** The scenario of X5: the page holds annotations 1, 2 and 3, and 2 is
    marked deleted; the fetch leaves 2 without callbacks and without a
    task. *)
Lemma deleted_entities_are_skipped_scenario :
  let s := run [CallAppend 7; EntityUpdate 2 true None] page_view in
  let s' := step (FetchSettle 0 (FetchList [1; 2; 3])) s in
  passes s !! 0 = Some (mkPass AwaitFetch [])
  ∧ deleted (entity (entities s) 2) = true
  ∧ actions (entity (entities s') 2) = (None, None, None)
  ∧ passes s' !! 0 = Some (mkPass AwaitAll [1; 3])
  ∧ count_call (InstallActions 2) s' = 0
  ∧ count_call (RenderAsync 2) s' = 0.
Proof.
  intros s s'.
  assert (passes s !! 0 = Some (mkPass AwaitFetch [])) as Hp by (vm_compute; reflexivity).
  assert (deleted (entity (entities s) 2) = true) as Hd by (vm_compute; reflexivity).
  destruct (deleted_entities_are_skipped s 0 [] [1; 2; 3] 2 Hp (or_introl Hd))
    as (He & Hi & Hr & _).
  fold s' in He, Hi, Hr. rewrite He, Hi, Hr.
  repeat split; try done; vm_compute; reflexivity.
Defined.

(** X6. When a fetch settles with a list, every entity of the list that is
    not marked deleted and not tracked gets the three callbacks of this
    view (selection request with the entity, focus request with the
    entity, focus request with none), has its render operation called, and
    has a task added to the pass; its deletion flag and cached result are
    not written. *)
Theorem untracked_entities_are_wired_and_rendered
    (s : State) (p : nat) (pend l : list nat) (a : nat) :
  passes s !! p = Some (mkPass AwaitFetch pend) →
  a ∈ l → deleted (entity (entities s) a) = false → a ∉ _rendered s →
  let s' := step (FetchSettle p (FetchList l)) s in
  onPointerDownAction (entity (entities s') a) = Some (DispatchSelectionRequest a)
  ∧ onPointerEnterAction (entity (entities s') a) = Some (DispatchFocusRequest (Some a))
  ∧ onPointerLeaveAction (entity (entities s') a) = Some (DispatchFocusRequest None)
  ∧ deleted (entity (entities s') a) = false
  ∧ lastRenderResult (entity (entities s') a) = lastRenderResult (entity (entities s) a)
  ∧ count_call (InstallActions a) s < count_call (InstallActions a) s'
  ∧ count_call (RenderAsync a) s < count_call (RenderAsync a) s'
  ∧ ∃ ph pend', passes s' !! p = Some (mkPass ph pend') ∧ a ∈ pend'.
Proof.
  intros Hp Hl Hdel Ha s'.
  set (annots := filter (fun a => deleted (entity (entities s) a) = false) l).
  set (s0 := set_fetched (l :: fetched s) s).
  assert (a ∈ annots) as Hin by (apply list_elem_of_filter; by split).
  destruct (step_fetch_list p pend l s Hp) as (He & Hc & _ & _ & _ & ph & Hph).
  fold s' annots s0 in He, Hc, Hph.
  destruct (fan_out_untracked annots a s0 Hin Ha) as (H1 & H2 & H3 & H4).
  destruct (fan_out_data annots a s0) as [Hd1 Hd2].
  unfold installed, actions in H2. unfold count_call in *. rewrite He, Hc.
  injection H2 as A B C.
  split; [done|]. split; [done|]. split; [done|]. split; [by rewrite Hd1|].
  split; [done|]. split; [done|]. split; [done|].
  exists ph, (pend ++ (fan_out annots s0).1.1). split; [done|].
  apply elem_of_app. by right.
Qed.

(** The scenario of X6: annotations 1 and 2 are fetched on a new view. *)
Lemma untracked_entities_are_wired_and_rendered_scenario :
  let s := run [CallAppend 7] page_view in
  let s' := step (FetchSettle 0 (FetchList [1; 2])) s in
  passes s !! 0 = Some (mkPass AwaitFetch [])
  ∧ installed 2 s'
  ∧ passes s' !! 0 = Some (mkPass AwaitAll [1; 2])
  ∧ 0 < count_call (RenderAsync 2) s'.
Proof.
  intros s s'.
  assert (passes s !! 0 = Some (mkPass AwaitFetch [])) as Hp by (vm_compute; reflexivity).
  assert (2 ∈ [1; 2]) as Hl by (right; left).
  assert (deleted (entity (entities s) 2) = false) as Hd by (vm_compute; reflexivity).
  assert (2 ∉ _rendered s) as Hr by (intros H; vm_compute in H; discriminate).
  destruct (untracked_entities_are_wired_and_rendered s 0 [] [1; 2] 2 Hp Hl Hd Hr)
    as (A & B & C & _ & _ & _ & D & _).
  fold s' in A, B, C, D. unfold installed, actions. rewrite A, B, C.
  split; [done|]. split; [done|]. split; [vm_compute; reflexivity|lia].
Defined.

(** ** The end of a render task *)

(** X7. On a live view, when the render of a pending task settles with a
    result, the entity joins the tracked set, the controls fragment
    becomes the last child of the svg and the content fragment the last
    child of the container; what was on the two surfaces stays on them.
    When it settles with null, the task ends and nothing else changes: the
    entity is not tracked and keeps the callbacks it was given. *)
Theorem render_result_is_tracked_and_appended
    (svc : DocumentService) (info : PageInfo) (dims : Vec2) (evs : list Event)
    (p k : nat) (ph : Phase) (pend : list nat) (a : nat)
    (r : AnnotationRenderResult) :
  let s := run evs (new_view svc info dims) in
  _destroyed s = false →
  passes s !! p = Some (mkPass ph pend) →
  pend !! k = Some a →
  let s' := step (RenderSettle p k (Some r)) s in
  _rendered s' = {[a]} ∪ _rendered s
  ∧ last (svg_children s') = Some (controls r)
  ∧ last (div_children s') = Some (ContentNode (content r))
  ∧ (∀ n, n ∈ svg_children s → n ∈ svg_children s')
  ∧ (∀ n, n ∈ div_children s → n ∈ div_children s')
  ∧ entities s' = entities s
  ∧ passes s' !! p = Some (mkPass ph (delete k pend))
  ∧ step (RenderSettle p k None) s = set_pass p (mkPass ph (delete k pend)) s.
Proof.
  intros s Hd Hp Hk s'.
  pose proof (lifecycle_inv_run svc info dims evs) as Hlc. fold s in Hlc.
  pose proof (lc_alive _ Hlc Hd) as Hc.
  assert (p < length (passes s)) as Hlt by (by eapply lookup_lt_Some).
  assert (s' = set_pass p (mkPass ph (delete k pend))
                 (set_div_children (dom_append (ContentNode (content r)) (div_children s))
                    (set_svg_children (dom_append (controls r) (svg_children s))
                       (set_rendered ({[a]} ∪ _rendered s) s)))) as ->.
  { unfold s', step, step_opt. rewrite Hp, Hk.
    rewrite processAnnotation_finish_append by done. simpl. by destruct ph. }
  simpl. split; [done|].
  split; [apply dom_append_last|]. split; [apply dom_append_last|].
  split; [intros n Hn; apply elem_of_dom_append; by right|].
  split; [intros n Hn; apply elem_of_dom_append; by right|].
  split; [done|]. split; [by apply list_lookup_insert_eq|].
  unfold step, step_opt. rewrite Hp, Hk. simpl. by destruct ph.
Qed.

(** The scenario of X7: the render of annotation 2 settles first. *)
Lemma render_result_is_tracked_and_appended_scenario :
  let s := run two_pending page_view in
  let s' := step (RenderSettle 0 1 (Some result_b)) s in
  _destroyed s = false
  ∧ passes s !! 0 = Some (mkPass AwaitAll [1; 2])
  ∧ _rendered s' = {[2]}
  ∧ svg_children s' = [11]
  ∧ div_children s' = [ContentNode 21]
  ∧ passes s' !! 0 = Some (mkPass AwaitAll [1]).
Proof.
  intros s s'.
  assert (_destroyed s = false) as Hd by (vm_compute; reflexivity).
  assert (passes s !! 0 = Some (mkPass AwaitAll [1; 2])) as Hp by (vm_compute; reflexivity).
  destruct (render_result_is_tracked_and_appended (mkService ∅) (mkPageInfo 1)
              (mkVec2 612 792) two_pending 0 1 AwaitAll [1; 2] 2 result_b Hd Hp eq_refl)
    as (_ & _ & _ & _ & _ & _ & Hps & _).
  split; [done|]. split; [done|]. split; [vm_compute; reflexivity|].
  split; [vm_compute; reflexivity|]. split; [vm_compute; reflexivity|]. exact Hps.
Defined.

(** ** The end of a render pass *)

(** X8. When all tasks of a pass have settled and the pass resumes on a
    live view, it returns true and the svg becomes the last child of the
    container, after every content fragment, where it occurs once; nothing
    else is written.  On a destroyed view it returns false and writes
    nothing. *)
Theorem pass_ends_with_controls_on_top
    (svc : DocumentService) (info : PageInfo) (dims : Vec2) (evs : list Event)
    (p : nat) :
  let s := run evs (new_view svc info dims) in
  passes s !! p = Some (mkPass AwaitAll []) →
  step_opt (PassJoin p) s
  = Some (if _destroyed s
          then set_pass p (mkPass (Settled (Normal false)) []) s
          else set_pass p (mkPass (Settled (Normal true)) [])
                 (set_div_children
                    (filter (fun n => n ≠ SvgNode) (div_children s) ++ [SvgNode]) s))
  ∧ (_destroyed s = false →
     last (div_children (step (PassJoin p) s)) = Some SvgNode
     ∧ ∀ n, n ∈ div_children s → n ∈ div_children (step (PassJoin p) s)).
Proof.
  intros s Hp.
  pose proof (lifecycle_inv_run svc info dims evs) as Hlc. fold s in Hlc.
  assert (step_opt (PassJoin p) s
          = Some (if _destroyed s
                  then set_pass p (mkPass (Settled (Normal false)) []) s
                  else set_pass p (mkPass (Settled (Normal true)) [])
                         (set_div_children (dom_append SvgNode (div_children s)) s)))
    as Hstep.
  { unfold step_opt. rewrite Hp, renderAnnotationsAsync_joined_spec.
    destruct (_destroyed s) eqn:Hd; [done|]. by rewrite (lc_alive _ Hlc Hd). }
  split; [exact Hstep|]. intros Hd. unfold step. rewrite Hstep, Hd. simpl.
  split; [apply dom_append_last|]. intros n Hn. apply elem_of_dom_append. by right.
Qed.

(** The scenario of X8: both renders have settled, annotation 2 first. *)
Lemma pass_ends_with_controls_on_top_scenario :
  let s := run (take 4 two_rendered) page_view in
  passes s !! 0 = Some (mkPass AwaitAll [])
  ∧ _destroyed s = false
  ∧ div_children s = [ContentNode 21; ContentNode 20]
  ∧ div_children (step (PassJoin 0) s) = [ContentNode 21; ContentNode 20; SvgNode]
  ∧ last (div_children (step (PassJoin 0) s)) = Some SvgNode.
Proof.
  intros s.
  assert (passes s !! 0 = Some (mkPass AwaitAll [])) as Hp by (vm_compute; reflexivity).
  assert (_destroyed s = false) as Hd by (vm_compute; reflexivity).
  destruct (pass_ends_with_controls_on_top (mkService ∅) (mkPageInfo 1)
              (mkVec2 612 792) (take 4 two_rendered) 0 Hp) as [_ Hlast].
  destruct (Hlast Hd) as [Hl _].
  split; [done|]. split; [done|]. split; [vm_compute; reflexivity|].
  split; [vm_compute; reflexivity|]. exact Hl.
Defined.

(** ** What changes the tracked set *)

(** X9. An entity enters the tracked set only when the render of one of
    its pending tasks settles with a result on a view that is not
    destroyed, and leaves it only by [destroy]. *)
Theorem tracked_set_changes_only_by_render_or_destroy
    (s : State) (e : Event) (a : nat) :
  (a ∈ _rendered (step e s) → a ∉ _rendered s →
   _destroyed s = false
   ∧ ∃ p k r ph pend, e = RenderSettle p k (Some r)
                      ∧ passes s !! p = Some (mkPass ph pend)
                      ∧ pend !! k = Some a)
  ∧ (a ∈ _rendered s → a ∉ _rendered (step e s) → e = CallDestroy).
Proof.
  split.
  - apply step_cases; try done.
    + intros parent _. rewrite appendAsync_enter_spec.
      destruct (_destroyed s); [done|]. by destruct (_container s).
    + intros _. rewrite remove_spec. simpl. by destruct (_container s).
    + intros p o pend _ _. simpl.
      by destruct (renderAnnotationsAsync_fetched_frame o s) as (_&_&_&->&_).
    + intros p k r ph pend b -> Hp Hk. simpl. intros Hin Hnin.
      destruct r as [r|], (_destroyed s) eqn:Hd;
        try (rewrite processAnnotation_finish_discard in Hin by auto; done).
      rewrite processAnnotation_finish_rendered in Hin by done.
      apply elem_of_union in Hin as [->%elem_of_singleton|Hin]; [|done].
      split; [done|]. by exists p, k, r, ph, pend.
    + intros p _ _. rewrite renderAnnotationsAsync_joined_spec.
      destruct (_destroyed s); [done|]. by destruct (_container s).
    + intros p r pend _ _. destruct r as [[]|]; simpl; [done| |done].
      by destruct (_container s).
    + intros d _ _. unfold onAnnotationSelectionChange.
      destruct (negb _ && _); [|done].
      destruct (_container s); [|done]. by destruct (detail_annotations d) as [[|]|].
  - intros Hin Hnin. destruct e; try done; exfalso; apply Hnin;
      by apply step_rendered_mono.
Qed.

(** The scenario of X9: the render of annotation 2 settles with a
    result. *)
Lemma tracked_set_changes_only_by_render_or_destroy_scenario :
  let s := run two_pending page_view in
  2 ∈ _rendered (step (RenderSettle 0 1 (Some result_b)) s)
  ∧ (2 ∉ _rendered s)
  ∧ _destroyed s = false
  ∧ ∃ p k r ph pend, RenderSettle 0 1 (Some result_b) = RenderSettle p k (Some r)
                     ∧ passes s !! p = Some (mkPass ph pend)
                     ∧ pend !! k = Some 2.
Proof.
  intros s.
  assert (2 ∈ _rendered (step (RenderSettle 0 1 (Some result_b)) s)) as H1
    by (vm_compute; reflexivity).
  assert (2 ∉ _rendered s) as H2 by (intros H; vm_compute in H; discriminate).
  destruct (tracked_set_changes_only_by_render_or_destroy s
              (RenderSettle 0 1 (Some result_b)) 2) as [Hin _].
  split; [done|]. split; [done|]. exact (Hin H1 H2).
Defined.

(** ** The container reference *)

Lemma processAnnotation_finish_normal a r s :
  _destroyed s = true ∨ _container s = Some tt →
  (processAnnotation_finish a r s).1 = Normal tt.
Proof.
  intros Hs. unfold_js. destruct r as [r|]; [|done].
  destruct (_destroyed s) eqn:Hd; [done|]. destruct Hs as [?|Hc]; [done|].
  simpl. by rewrite Hc.
Qed.

Lemma processAnnotation_enter_normal a s :
  _destroyed s = true ∨ _container s = Some tt →
  (processAnnotation_enter a s).1 = Suspended
  ∨ (processAnnotation_enter a s).1 = Finished (Normal tt).
Proof.
  intros Hs. unfold processAnnotation_enter.
  destruct (decide (a ∈ _rendered s)); [|by left].
  destruct (lastRenderResult (entity (entities s) a)) as [r|]; [|by left].
  pose proof (processAnnotation_finish_normal a (Some r) s Hs) as Hn.
  destruct (processAnnotation_finish a (Some r) s). simpl in *. right. by rewrite Hn.
Qed.

(** No task of the fan-out throws while the view has its container or is
    destroyed. *)
Lemma fan_out_normal l s :
  _destroyed s = true ∨ _container s = Some tt → (fan_out l s).1.2 = None.
Proof.
  revert s. induction l as [|a l IH]; intros s Hs; [done|].
  pose proof (processAnnotation_enter_normal a s Hs) as Ht.
  pose proof (processAnnotation_enter_frame a s) as [_ _ Hc Hd _ _ _ _ _].
  specialize (IH (processAnnotation_enter a s).2). rewrite Hc, Hd in IH.
  specialize (IH Hs). simpl.
  destruct (processAnnotation_enter a s) as [t s1]. simpl in *.
  destruct (fan_out l s1) as [[susp err] s2]. simpl in *.
  destruct Ht as [->| ->]; done.
Qed.

(** X10. In every state the view can reach, the container reference is
    null exactly when the view is destroyed, and no piece of the class
    that dereferences it throws: the end of [processAnnotation], the end
    of the render pass and the selection handler complete normally, as
    does [clear] on a view that is not destroyed; the render pass returns
    true exactly when the view is not destroyed. *)
Theorem container_is_never_dereferenced_when_null
    (svc : DocumentService) (info : PageInfo) (dims : Vec2) (evs : list Event) :
  let s := run evs (new_view svc info dims) in
  (_container s = None ↔ _destroyed s = true)
  ∧ (∀ a r, (processAnnotation_finish a r s).1 = Normal tt)
  ∧ (renderAnnotationsAsync_joined s).1 = Normal (negb (_destroyed s))
  ∧ (∀ d, (onAnnotationSelectionChange d s).1 = Normal tt)
  ∧ (_destroyed s = false → (clear s).1 = Normal tt)
  ∧ (∀ l, (fan_out l s).1.2 = None).
Proof.
  intros s.
  pose proof (lifecycle_inv_run svc info dims evs) as Hlc. fold s in Hlc.
  assert (_destroyed s = true ∨ _container s = Some tt) as Hsafe.
  { destruct (_destroyed s) eqn:Hd; [by left|right]. by apply Hlc. }
  split; [|split; [|split; [|split; [|split]]]].
  - destruct (_destroyed s) eqn:Hd.
    + by destruct (lc_dead _ Hlc Hd) as (-> & _).
    + by rewrite (lc_alive _ Hlc Hd).
  - intros a r. by apply processAnnotation_finish_normal.
  - rewrite renderAnnotationsAsync_joined_spec.
    destruct (_destroyed s) eqn:Hd; [done|]. by rewrite (lc_alive _ Hlc Hd).
  - intros d. unfold onAnnotationSelectionChange.
    destruct (_destroyed s) eqn:Hd; [done|]. rewrite (lc_alive _ Hlc Hd). simpl.
    destruct (bool_decide _); [|done]. by destruct (detail_annotations d) as [[|]|].
  - intros Hd. unfold clear, bind, write. by rewrite (lc_alive _ Hlc Hd).
  - intros l. by apply fan_out_normal.
Qed.

(** X11. The only TypeError the view raises is the one of a fetch that
    yields nothing: under a schedule in which every fetch settles with a
    list or throws, no render pass and no [appendAsync] is rejected with a
    TypeError. *)
Theorem type_error_only_from_null_fetch
    (svc : DocumentService) (info : PageInfo) (dims : Vec2) (evs : list Event) :
  (∀ p, FetchSettle p FetchNothing ∉ evs) →
  ∀ ps, ps ∈ passes (run evs (new_view svc info dims)) → ¬ type_error ps.
Proof.
  induction evs as [|e evs IH] using rev_ind; intros Hnone.
  { simpl. by intros ps ?%elem_of_nil. }
  assert (∀ p, FetchSettle p FetchNothing ∉ evs) as Hnone'.
  { intros p Hin. apply (Hnone p). apply elem_of_app. by left. }
  assert (∀ p, e ≠ FetchSettle p FetchNothing) as He.
  { intros p ->. apply (Hnone p). apply elem_of_app. right. by left. }
  specialize (IH Hnone'). rewrite run_snoc.
  pose proof (lifecycle_inv_run svc info dims evs) as Hlc.
  revert IH Hlc. generalize (run evs (new_view svc info dims)) as s. intros s IH Hlc.
  assert (_destroyed s = true ∨ _container s = Some tt) as Hsafe.
  { destruct (_destroyed s) eqn:Hd; [by left|right]. by apply Hlc. }
  assert (∀ p v ps, ps ∈ <[p := v]> (passes s) → ¬ type_error v → ¬ type_error ps)
    as Hins.
  { intros p v ps [->|Hin]%elem_of_insert_inv Hv; [done|by apply IH]. }
  apply step_cases; try done.
  - intros parent _. rewrite appendAsync_enter_spec.
    destruct (_destroyed s) eqn:Hd; [done|]. rewrite (lc_alive _ Hlc Hd). simpl.
    intros ps [Hin| ->%list_elem_of_singleton]%elem_of_app; [by apply IH|].
    by intros [?|?].
  - intros _. rewrite remove_spec. simpl. by destruct (_container s).
  - intros _. rewrite destroy_spec. simpl. by destruct (_container s).
  - intros p o pend -> Hp ps. simpl.
    destruct (renderAnnotationsAsync_fetched_frame o s) as (_&_&_&_&_&_&_&->).
    intros Hin. eapply Hins; [done|]. simpl. intros [Hph|Hph]; [|by
      destruct (renderAnnotationsAsync_fetched_phase o s) as [Hq|[e' Hq]];
        rewrite Hq in Hph].
    destruct o as [l| |]; [|by apply (He p)|done].
    unfold renderAnnotationsAsync_fetched in Hph.
    pose proof (fan_out_normal
      (filter (fun a => deleted (entity (entities s) a) = false) l)
      (set_fetched (l :: fetched s) s) Hsafe) as Herr.
    simpl in Hph. destruct (fan_out _ _) as [[susp err] s1]. simpl in *.
    by subst err.
  - intros p k r ph pend a _ Hp Hk ps. simpl.
    destruct (processAnnotation_finish_frame a r s) as [_ _ _ _ _ _ _ -> _].
    intros Hin. eapply Hins; [done|]. simpl.
    rewrite (processAnnotation_finish_normal a r s Hsafe).
    apply (IH (mkPass ph pend)). by eapply list_elem_of_lookup_2.
  - intros p k ph pend a _ Hp Hk ps. simpl.
    intros Hin. eapply Hins; [done|].
    assert (¬ type_error (mkPass ph pend)) as Hold.
    { apply IH. by eapply list_elem_of_lookup_2. }
    unfold type_error in *. simpl in *. destruct ph; naive_solver.
  - intros p _ Hp ps. rewrite renderAnnotationsAsync_joined_spec.
    destruct (_destroyed s) eqn:Hd; simpl.
    + intros Hin. eapply Hins; [done|]. by intros [?|?].
    + rewrite (lc_alive _ Hlc Hd). simpl.
      intros Hin. eapply Hins; [done|]. by intros [?|?].
  - intros p r pend _ Hp ps.
    assert (¬ type_error (mkPass (Settled r) pend)) as Hold.
    { apply IH. by eapply list_elem_of_lookup_2. }
    destruct r as [[]|err]; simpl; [|destruct (_container s); simpl|];
      intros Hin; (eapply Hins; [done|]); unfold type_error in *; simpl in *;
      naive_solver.
  - intros d _ _. unfold onAnnotationSelectionChange.
    destruct (negb _ && _); [|done].
    destruct (_container s); [|done]. by destruct (detail_annotations d) as [[|]|].
Qed.

(** The scenario of X11: a complete pass over two annotations. *)
Lemma type_error_only_from_null_fetch_scenario :
  (∀ p, FetchSettle p FetchNothing ∉ two_rendered)
  ∧ passes (run two_rendered page_view) = [mkPass (Done (Normal tt)) []]
  ∧ ¬ type_error (mkPass (Done (Normal tt)) []).
Proof.
  assert (∀ p, FetchSettle p FetchNothing ∉ two_rendered) as Hnone.
  { intros p Hin. unfold two_rendered in Hin.
    repeat (apply elem_of_cons in Hin as [Hin|Hin]; [discriminate|]).
    by apply elem_of_nil in Hin. }
  split; [done|]. split; [vm_compute; reflexivity|].
  apply (type_error_only_from_null_fetch (mkService ∅) (mkPageInfo 1)
           (mkVec2 612 792) two_rendered Hnone).
  vm_compute. left.
Defined.

(** ** [appendAsync] *)

(** X12. On a view that is not destroyed, [appendAsync] attaches the
    container to the host before any annotation is fetched, empties the
    container and the svg, and suspends a new activation at the fetch.  It
    writes nothing else: the entities tracked before stay tracked although
    their fragments are gone, and the listener is not registered yet. *)
Theorem appendAsync_attaches_then_clears
    (svc : DocumentService) (info : PageInfo) (dims : Vec2) (evs : list Event)
    (parent : nat) :
  let s := run evs (new_view svc info dims) in
  _destroyed s = false →
  let s' := step (CallAppend parent) s in
  div_parent s' = Some parent
  ∧ div_children s' = [] ∧ svg_children s' = []
  ∧ passes s' = passes s ++ [mkPass AwaitFetch []]
  ∧ _rendered s' = _rendered s ∧ entities s' = entities s
  ∧ listening s' = listening s ∧ calls s' = calls s ∧ fetched s' = fetched s.
Proof.
  intros s Hd s'.
  pose proof (lifecycle_inv_run svc info dims evs) as Hlc. fold s in Hlc.
  unfold s', step. simpl. rewrite appendAsync_enter_spec, Hd, (lc_alive _ Hlc Hd).
  done.
Qed.

(** The scenario of X12: a second [appendAsync], to another host, after a
    complete pass. *)
Lemma appendAsync_attaches_then_clears_scenario :
  let s := run two_rendered page_view in
  let s' := step (CallAppend 8) s in
  _destroyed s = false
  ∧ div_parent s = Some 7 ∧ div_children s = [ContentNode 21; ContentNode 20; SvgNode]
  ∧ div_parent s' = Some 8 ∧ div_children s' = [] ∧ svg_children s' = []
  ∧ _rendered s' = {[1; 2]}.
Proof.
  intros s s'.
  assert (_destroyed s = false) as Hd by (vm_compute; reflexivity).
  destruct (appendAsync_attaches_then_clears (mkService ∅) (mkPageInfo 1)
              (mkVec2 612 792) two_rendered 8 Hd) as (A & B & C & _ & D & _).
  split; [done|]. split; [vm_compute; reflexivity|]. split; [vm_compute; reflexivity|].
  split; [exact A|]. split; [exact B|]. split; [exact C|]. vm_compute. reflexivity.
Defined.

(** ** A rejected render *)

(** X13. When the render of a task rejects while the pass awaits its
    tasks, the pass rejects and [appendAsync] rejects with it.  Neither
    detaches the container nor registers the listener; what is on the
    surfaces, the tracked set and the entities, with the callbacks
    installed on the entity of the rejected task, stay as they are, and
    the other tasks stay pending. *)
Theorem rejected_render_rejects_appendAsync
    (s : State) (p k : nat) (pend : list nat) (a : nat) :
  passes s !! p = Some (mkPass AwaitAll pend) →
  pend !! k = Some a →
  let s1 := step (RenderReject p k) s in
  let s2 := step (AppendResume p) s1 in
  passes s1 !! p = Some (mkPass (Settled (Abrupt Rejection)) (delete k pend))
  ∧ passes s2 !! p = Some (mkPass (Done (Abrupt Rejection)) (delete k pend))
  ∧ step_opt (PassJoin p) s1 = None
  ∧ visible s2 = visible s
  ∧ listening s2 = listening s
  ∧ _rendered s2 = _rendered s
  ∧ entities s2 = entities s.
Proof.
  intros Hp Hk s1 s2.
  assert (p < length (passes s)) as Hlt by (by eapply lookup_lt_Some).
  assert (s1 = set_pass p (mkPass (Settled (Abrupt Rejection)) (delete k pend)) s) as Hs1.
  { unfold s1, step, step_opt. by rewrite Hp, Hk. }
  assert (passes s1 !! p
          = Some (mkPass (Settled (Abrupt Rejection)) (delete k pend))) as Hp1.
  { rewrite Hs1. simpl. by apply list_lookup_insert_eq. }
  assert (s2 = set_pass p (mkPass (Done (Abrupt Rejection)) (delete k pend)) s1) as Hs2.
  { unfold s2, step, step_opt. by rewrite Hp1. }
  split; [done|]. split.
  { rewrite Hs2. simpl. apply list_lookup_insert_eq.
    rewrite Hs1. simpl. by rewrite length_insert. }
  split; [unfold step_opt; by rewrite Hp1|].
  by rewrite Hs2, Hs1.
Qed.

(** The scenario of X13: the render of annotation 1 rejects while that of
    annotation 2 is pending; the render of 2 then settles and its
    fragments are appended all the same. *)
Lemma rejected_render_rejects_appendAsync_scenario :
  let s := run two_pending page_view in
  let s2 := step (AppendResume 0) (step (RenderReject 0 0) s) in
  passes s !! 0 = Some (mkPass AwaitAll [1; 2])
  ∧ passes s2 !! 0 = Some (mkPass (Done (Abrupt Rejection)) [2])
  ∧ div_parent s2 = Some 7
  ∧ listening s2 = false
  ∧ installed 1 s2
  ∧ div_children (step (RenderSettle 0 0 (Some result_b)) s2) = [ContentNode 21].
Proof.
  intros s s2.
  assert (passes s !! 0 = Some (mkPass AwaitAll [1; 2])) as Hp by (vm_compute; reflexivity).
  destruct (rejected_render_rejects_appendAsync s 0 0 [1; 2] 1 Hp eq_refl)
    as (_ & H2 & _ & _ & Hl & _ & He).
  split; [done|]. split; [exact H2|]. repeat split; vm_compute; reflexivity.
Defined.

(** ** A complete pass *)

Lemma run_opt_app evs evs' s :
  run_opt (evs ++ evs') s
  = match run_opt evs s with
    | Some s' => run_opt evs' s'
    | None => None
    end.
Proof.
  revert s. induction evs as [|e evs IH]; intros s; simpl; [done|].
  destruct (step_opt e s); [apply IH|done].
Qed.

(** When no entity of the list is tracked, every task suspends and the
    surfaces are not written. *)
Lemma fan_out_all_untracked l s :
  (∀ a, a ∈ l → a ∉ _rendered s) →
  (fan_out l s).1.1 = l ∧ visible (fan_out l s).2 = visible s.
Proof.
  revert s. induction l as [|a l IH]; intros s Hl; [done|].
  set (t := set_calls (calls s ++ [InstallActions a; RenderAsync a])
              (set_entities (install_actions a (entities s)) s)).
  assert (processAnnotation_enter a s = (Suspended, t)) as Hent.
  { unfold processAnnotation_enter. rewrite decide_False by (apply Hl; by left).
    unfold t. simpl. by rewrite <- app_assoc. }
  rewrite fan_out_suspended, fan_out_state, Hent. cbn [fst snd].
  destruct (IH t) as [-> ->]; [|done].
  intros b Hb. simpl. apply Hl. by right.
Qed.

Lemma step_opt_render_result p k ph pend a r s :
  passes s !! p = Some (mkPass ph pend) → pend !! k = Some a →
  _destroyed s = false → _container s = Some tt →
  step_opt (RenderSettle p k (Some r)) s
  = Some (set_pass p (mkPass ph (delete k pend))
            (set_div_children (dom_append (ContentNode (content r)) (div_children s))
               (set_svg_children (dom_append (controls r) (svg_children s))
                  (set_rendered ({[a]} ∪ _rendered s) s)))).
Proof.
  intros Hp Hk Hd Hc. unfold step_opt. rewrite Hp, Hk.
  rewrite processAnnotation_finish_append by done. by destruct ph.
Qed.

(** The renders of all pending tasks settle with results, on a live view
    with a single activation. *)
Lemma settle_in_order_spec f pend u :
  passes u = [mkPass AwaitAll pend] →
  _destroyed u = false → _container u = Some tt →
  ∃ u', run_opt (settle_in_order 0 f pend) u = Some u'
        ∧ passes u' = [mkPass AwaitAll []]
        ∧ _destroyed u' = false ∧ _container u' = Some tt
        ∧ div_parent u' = div_parent u ∧ listening u' = listening u
        ∧ entities u' = entities u
        ∧ _rendered u' = list_to_set pend ∪ _rendered u
        ∧ (∀ n, n ∈ div_children u' ↔
                n ∈ div_children u ∨ ∃ a, a ∈ pend ∧ n = ContentNode (content (f a)))
        ∧ (∀ n, n ∈ svg_children u' ↔
                n ∈ svg_children u ∨ ∃ a, a ∈ pend ∧ n = controls (f a)).
Proof.
  revert u. induction pend as [|a pend IH]; intros u Hp Hd Hc.
  { exists u. simpl. repeat split; try done; set_solver. }
  set (u1 := set_pass 0 (mkPass AwaitAll pend)
               (set_div_children (dom_append (ContentNode (content (f a))) (div_children u))
                  (set_svg_children (dom_append (controls (f a)) (svg_children u))
                     (set_rendered ({[a]} ∪ _rendered u) u)))).
  assert (step_opt (RenderSettle 0 0 (Some (f a))) u = Some u1) as Hstep.
  { rewrite (step_opt_render_result 0 0 AwaitAll (a :: pend) a (f a) u);
      [done|by rewrite Hp|done..]. }
  destruct (IH u1) as (u' & Hrun & Hp' & Hd' & Hc' & Hpar & Hl & He & Hr & Hdiv & Hsvg).
  { unfold u1. simpl. by rewrite Hp. }
  { done. }
  { done. }
  exists u'.
  change (run_opt (settle_in_order 0 f (a :: pend)) u)
    with (match step_opt (RenderSettle 0 0 (Some (f a))) u with
          | Some s' => run_opt (settle_in_order 0 f pend) s'
          | None => None
          end).
  rewrite Hstep.
  split; [done|]. split; [done|]. split; [done|]. split; [done|].
  split; [done|]. split; [done|]. split; [done|].
  split; [rewrite Hr; simpl; set_solver|]. split.
  - intros n. rewrite Hdiv. simpl. rewrite elem_of_dom_append. split.
    + intros [[->|Hn]|(b & Hb & ->)]; [right; exists a; split; [by left|done]|by left|].
      right. exists b. split; [by right|done].
    + intros [Hn|(b & [->|Hb]%elem_of_cons & ->)]; [left; by right|left; by left|].
      right. by exists b.
  - intros n. rewrite Hsvg. simpl. rewrite elem_of_dom_append. split.
    + intros [[->|Hn]|(b & Hb & ->)]; [right; exists a; split; [by left|done]|by left|].
      right. exists b. split; [by right|done].
    + intros [Hn|(b & [->|Hb]%elem_of_cons & ->)]; [left; by right|left; by left|].
      right. by exists b.
Qed.

(** X14. A complete [appendAsync] on a new view.  The fetch settles with
    any list, the render of every listed entity that is not marked deleted
    settles with a result, in list order, and the pass and [appendAsync]
    resume.  All these events are enabled, [appendAsync] completes
    normally, the container is attached to the host and the listener is
    registered.  The tracked set is exactly the set of listed entities not
    marked deleted, each of them carries the callbacks, the container
    holds exactly their content fragments and the svg, with the svg last,
    and the svg holds exactly their controls fragments. *)
Theorem complete_pass_renders_the_page
    (svc : DocumentService) (info : PageInfo) (dims : Vec2)
    (parent : nat) (l : list nat) (f : nat → AnnotationRenderResult) :
  let todo := filter (fun a => deleted (entity (annotations svc) a) = false) l in
  ∃ s, run_opt (complete_pass parent 0 l todo f) (new_view svc info dims) = Some s
       ∧ passes s = [mkPass (Done (Normal tt)) []]
       ∧ div_parent s = Some parent
       ∧ listening s = true
       ∧ _rendered s = list_to_set todo
       ∧ (∀ a, a ∈ todo → installed a s)
       ∧ (∀ n, n ∈ div_children s ↔
               n = SvgNode ∨ ∃ a, a ∈ todo ∧ n = ContentNode (content (f a)))
       ∧ last (div_children s) = Some SvgNode
       ∧ (∀ n, n ∈ svg_children s ↔ ∃ a, a ∈ todo ∧ n = controls (f a)).
Proof.
  intros todo.
  set (s1 := set_passes [mkPass AwaitFetch []]
               (set_svg_children []
                  (set_div_children []
                     (set_div_parent (Some parent) (new_view svc info dims))))).
  set (s0 := set_fetched (l :: fetched s1) s1).
  set (t := (fan_out todo s0).2).
  assert (∀ a, a ∈ todo → a ∉ _rendered s0) as Hun.
  { intros a _. simpl. apply not_elem_of_empty. }
  destruct (fan_out_all_untracked todo s0 Hun) as [Hsusp Hvis].
  pose proof (fan_out_normal todo s0 (or_intror eq_refl)) as Herr.
  pose proof (fan_out_frame todo s0) as [_ _ Hc Hd Hpar _ Hl Hps _].
  pose proof (fan_out_rendered todo s0) as Hr.
  fold t in Hvis, Hc, Hd, Hpar, Hl, Hps, Hr.
  assert (renderAnnotationsAsync_fetched (FetchList l) s1 = (AwaitAll, todo, t)) as Hf.
  { assert (fan_out todo s0 = (todo, None, t)) as Hfo.
    { unfold t. destruct (fan_out todo s0) as [[susp err] s2]. simpl in *. by subst. }
    transitivity (let '(susp, err, s2) := fan_out todo s0 in
                  match err with
                  | None => (AwaitAll, susp, s2)
                  | Some e => (Settled (Abrupt e), susp, s2)
                  end); [reflexivity|].
    by rewrite Hfo. }
  set (u := set_pass 0 (mkPass AwaitAll todo) t).
  assert (run_opt [CallAppend parent; FetchSettle 0 (FetchList l)]
            (new_view svc info dims) = Some u) as Hrun1.
  { change (run_opt [CallAppend parent; FetchSettle 0 (FetchList l)]
              (new_view svc info dims))
      with (match step_opt (FetchSettle 0 (FetchList l)) s1 with
            | Some s' => Some s'
            | None => None
            end).
    unfold step_opt.
    change (passes s1 !! 0) with (Some (mkPass AwaitFetch [])). cbv beta iota.
    by rewrite Hf. }
  destruct (settle_in_order_spec f todo u)
    as (u' & Hrun2 & Hp' & Hd' & Hc' & Hpar' & Hl' & He' & Hr' & Hdiv & Hsvg).
  { unfold u. simpl. by rewrite Hps. }
  { done. }
  { done. }
  set (s := set_pass 0 (mkPass (Done (Normal tt)) [])
              (set_listening true
                 (set_pass 0 (mkPass (Settled (Normal true)) [])
                    (set_div_children (dom_append SvgNode (div_children u')) u')))).
  assert (run_opt [PassJoin 0; AppendResume 0] u' = Some s) as Hrun3.
  { assert (step_opt (PassJoin 0) u'
            = Some (set_pass 0 (mkPass (Settled (Normal true)) [])
                      (set_div_children (dom_append SvgNode (div_children u')) u')))
      as Hj.
    { unfold step_opt. rewrite Hp'. simpl.
      rewrite renderAnnotationsAsync_joined_spec, Hd', Hc'. done. }
    change (run_opt [PassJoin 0; AppendResume 0] u')
      with (match step_opt (PassJoin 0) u' with
            | Some s' => match step_opt (AppendResume 0) s' with
                         | Some s'' => Some s''
                         | None => None
                         end
            | None => None
            end).
    rewrite Hj. unfold step_opt. simpl. by rewrite Hp'. }
  exists s. split.
  { unfold complete_pass. rewrite run_opt_app, Hrun1, run_opt_app, Hrun2. exact Hrun3. }
  assert (div_children u = []) as Hdu.
  { unfold u. simpl. unfold visible in Hvis. by simplify_eq. }
  assert (svg_children u = []) as Hsu.
  { unfold u. simpl. unfold visible in Hvis. by simplify_eq. }
  split; [unfold s; simpl; by rewrite Hp'|].
  split; [unfold s; simpl; by rewrite Hpar'|].
  split; [done|].
  split; [unfold s; simpl; rewrite Hr'; unfold u; simpl; rewrite Hr; simpl; set_solver|].
  split.
  { intros a Ha. unfold installed, s. simpl. rewrite He'. unfold u. simpl.
    by destruct (fan_out_untracked todo a s0 Ha (Hun a Ha)) as (_ & Hi & _). }
  split.
  { intros n. unfold s. simpl. rewrite elem_of_dom_append, Hdiv, Hdu.
    split; [intros [?|[?%elem_of_nil|?]]; auto; done|intros [?|?]; auto]. }
  split; [unfold s; simpl; apply dom_append_last|].
  intros n. unfold s. simpl. rewrite Hsvg, Hsu.
  split; [intros [?%elem_of_nil|?]; done|by right].
Qed.

(** ** A fetch that settles after [destroy] *)

Lemma foldr_clear_actions_data a (l : list nat) m :
  deleted (entity (foldr clear_actions m l) a) = deleted (entity m a)
  ∧ lastRenderResult (entity (foldr clear_actions m l) a)
    = lastRenderResult (entity m a).
Proof.
  induction l as [|b l IH]; [done|]. simpl.
  destruct (decide (b = a)) as [->|Hne].
  - unfold clear_actions. by rewrite entity_insert_eq.
  - by rewrite clear_actions_ne.
Qed.

(** X15. When [destroy] runs while a pass awaits its fetch and the fetch
    then settles with a list, the continuation still installs the three
    callbacks on every listed entity that is not marked deleted and calls
    its render operation.  Such an entity is never tracked afterwards, so
    no later event, [destroy] included, takes the callbacks off it. *)
Theorem callbacks_installed_after_destroy_stay
    (s : State) (p : nat) (pend l : list nat) (a : nat) (evs : list Event) :
  passes s !! p = Some (mkPass AwaitFetch pend) →
  a ∈ l → deleted (entity (entities s) a) = false →
  let s1 := step CallDestroy s in
  let s2 := step (FetchSettle p (FetchList l)) s1 in
  count_call (RenderAsync a) s1 < count_call (RenderAsync a) s2
  ∧ installed a (run evs s2)
  ∧ (a ∉ _rendered (run evs s2)).
Proof.
  intros Hp Hl Hdel s1 s2.
  pose proof (destroy_dead s) as Hdead. fold s1 in Hdead.
  assert (passes s1 !! p = Some (mkPass AwaitFetch pend)
          ∧ deleted (entity (entities s1) a) = false) as [Hp1 Hdel1].
  { unfold s1. change (step CallDestroy s) with (destroy s).2.
    rewrite destroy_spec. simpl.
    destruct (foldr_clear_actions_data a (elements (_rendered s)) (entities s)) as [-> _].
    by destruct (_container s). }
  assert (a ∉ _rendered s1) as Ha1.
  { destruct Hdead as (_ & _ & ->). apply not_elem_of_empty. }
  set (annots := filter (fun a => deleted (entity (entities s1) a) = false) l).
  set (s0 := set_fetched (l :: fetched s1) s1).
  assert (a ∈ annots) as Hin by (apply list_elem_of_filter; by split).
  destruct (step_fetch_list p pend l s1 Hp1) as (He & Hc & _).
  fold s2 annots s0 in He, Hc.
  destruct (fan_out_untracked annots a s0 Hin Ha1) as (_ & Hi & _ & Hcount).
  destruct (step_dead (FetchSettle p (FetchList l)) s1 Hdead) as [Hdead2 _].
  fold s2 in Hdead2.
  split; [unfold count_call in *; by rewrite Hc|]. split.
  - apply run_dead_installed; [done|]. unfold installed in *. by rewrite He.
  - destruct (run_dead evs s2 Hdead2) as [(_ & _ & ->) _]. apply not_elem_of_empty.
Qed.

(** The scenario of X15: [destroy] runs before the fetch of annotations 1
    and 2 settles; their renders then settle with results. *)
Lemma callbacks_installed_after_destroy_stay_scenario :
  let s := run [CallAppend 7] page_view in
  let s2 := step (FetchSettle 0 (FetchList [1; 2])) (step CallDestroy s) in
  let s3 := run [RenderSettle 0 0 (Some result_a); RenderSettle 0 0 (Some result_b);
                 PassJoin 0; AppendResume 0; CallDestroy] s2 in
  passes s !! 0 = Some (mkPass AwaitFetch [])
  ∧ deleted (entity (entities s) 1) = false
  ∧ 0 < count_call (RenderAsync 1) s2
  ∧ installed 1 s3
  ∧ (1 ∉ _rendered s3).
Proof.
  intros s s2 s3.
  assert (passes s !! 0 = Some (mkPass AwaitFetch [])) as Hp by (vm_compute; reflexivity).
  assert (deleted (entity (entities s) 1) = false) as Hd by (vm_compute; reflexivity).
  assert (1 ∈ [1; 2]) as Hl by left.
  destruct (callbacks_installed_after_destroy_stay s 0 [] [1; 2] 1
              [RenderSettle 0 0 (Some result_a); RenderSettle 0 0 (Some result_b);
               PassJoin 0; AppendResume 0; CallDestroy] Hp Hl Hd) as (Hc & Hi & Hn).
  split; [done|]. split; [done|]. split; [|split; [exact Hi|exact Hn]].
  eapply Nat.le_lt_trans; [|exact Hc]. lia.
Defined.
